(** * Nine-grid mission tool: the image cache and the option store

    A shallow embedding of [nine.py]: the [ImageCache] class (lazy decode,
    two caches, containment scaling through Pillow's [Image.thumbnail]) and
    the parts of [NineGridApp] that load the option file and refresh the
    nine cells. *)

From Stdlib Require Import ZArith QArith Qround Qabs Lia Ascii String.
From stdpp Require Import gmap strings pretty list fin_maps.

Set Warnings "-register-all".

Local Open Scope string_scope.
Local Open Scope list_scope.
Local Open Scope Z_scope.

(** ** Python values and exceptions *)

(** The subclasses of [Exception] that the modelled code can meet.
    [OtherError] carries the class name of any other one. *)
Inductive exn : Type :=
  | ZeroDivisionError
  | ValueError
  | TypeError
  | AttributeError
  | OverflowError
  | OSError
  | OtherError (class_name : string).

(** The outcome of a Python call: a value, or a raised exception. *)
Inductive Result (A : Type) : Type :=
  | Return (a : A)
  | Raise (e : exn).
Arguments Return {A} a.
Arguments Raise {A} e.

(** ** Images *)

(** The raster of an image, kept symbolic: the raster a file decoded to
    (identified by [tag]), or the resampling (LANCZOS filter) of the region
    [box] (left, upper, right, lower) of another raster to [to_w] x [to_h]. *)
Inductive Pixels : Type :=
  | Decoded (tag : N)
  | Resampled (src : Pixels) (box : Z * Z * Z * Z) (to_w to_h : Z).

(** A [PIL.Image.Image] in mode RGBA.  [Image.open] refuses a file whose
    size is not positive in both dimensions, so both are [positive]. *)
Record Image : Type := {
  width : positive;
  height : positive;
  pixels : Pixels
}.

(** An [ImageTk.PhotoImage]: the Tk bitmap made from an image. *)
Record PhotoImage : Type := { photo_image : Image }.


(** ** Pillow's [Image.thumbnail]

    [Image.thumbnail] belongs to Pillow, not to this program; its size
    computation is transcribed here from Pillow 7.1 and later, on an image
    held in memory (so [draft] does nothing) and a box of two [int]s, with
    Python's floats read as exact rationals. *)

Definition Qlt_bool (a b : Q) : bool := negb (Qle_bool b a).

(** [round_aspect(number, key)]:
    [max(min(math.floor(number), math.ceil(number), key=key), 1)];
    Python's [min] keeps the first of two candidates with equal keys. *)
Definition round_aspect (number : Q) (key : Z -> Q) : Z :=
  let lo := Qfloor number in
  let hi := Qceiling number in
  Z.max (if Qlt_bool (key hi) (key lo) then hi else lo) 1.

(** [preserve_aspect_ratio()]: [Return None] is the early [return] taken
    when the box contains the image. *)
Definition preserve_aspect_ratio (w h : positive) (size : Z * Z)
  : Result (option (Z * Z)) :=
  let '(x, y) := size in
  if (Zpos w <=? x) && (Zpos h <=? y) then Return None
  else
    let aspect := (inject_Z (Zpos w) / inject_Z (Zpos h))%Q in
    if y =? 0 then Raise ZeroDivisionError
    else if Qle_bool aspect (inject_Z x / inject_Z y) then
      Return (Some
        (round_aspect (inject_Z y * aspect)
           (fun n => Qabs (aspect - inject_Z n / inject_Z y))%Q, y))
    else
      Return (Some
        (x, round_aspect (inject_Z x / aspect)
              (fun n => if n =? 0 then 0
                        else Qabs (aspect - inject_Z x / inject_Z n))%Q)).

(** [Image.resize(size, LANCZOS)] over the whole image: the core refuses a
    target below one pixel ("height and width must be > 0"). *)
Definition resize (img : Image) (size : Z * Z) : Result Image :=
  let '(x, y) := size in
  if (x <? 1) || (y <? 1) then Raise ValueError
  else Return {| width := Z.to_pos x; height := Z.to_pos y;
                 pixels := Resampled (pixels img)
                             (0, 0, Zpos (width img), Zpos (height img)) x y |}.

(** [img.thumbnail(size, Image.LANCZOS)]: the image is modified in place,
    so the new value of [img] is returned. *)
Definition thumbnail (img : Image) (size : Z * Z) : Result Image :=
  match preserve_aspect_ratio (width img) (height img) size with
  | Raise e => Raise e
  | Return None => Return img
  | Return (Some sz) =>
      if decide (sz = (Zpos (width img), Zpos (height img))) then Return img
      else resize img sz
  end.

(** ** The world outside the program *)

(** JSON documents as [json.load] returns them. *)
Inductive pyfloat : Type :=
  | nan
  | inf (negative : bool)
  | finite (q : Q).

Inductive pyval : Type :=
  | PyNone
  | PyBool (b : bool)
  | PyInt (z : Z)
  | PyFloat (f : pyfloat)
  | PyStr (s : string)
  | PyList (items : list pyval)
  | PyDict (items : list (string * pyval)).

(** What the program asks of the file system and of the libraries that
    read it, at one moment: [os.path.exists(path)],
    [Image.open(path).convert("RGBA")], [json.load] on the opened file,
    [os.path.basename(path)], and two built-ins of the interpreter that
    are kept abstract: [int(s)] on a [str] ([None] when it raises
    [ValueError]) and the [repr] that [str] returns for a float, a list or
    a dict.  [Raise] stands for any [Exception]. *)
Record World : Type := {
  path_exists : string -> bool;
  image_open : string -> Result Image;
  json_load : string -> Result pyval;
  basename : string -> string;
  int_of_str : string -> option Z;
  repr : pyval -> string
}.

(** What the program does to the outside: a decode of a file, and a modal
    error dialog ([messagebox.showerror]) whose text is built from the path
    and the exception. *)
Inductive Event : Type :=
  | EvDecode (path : string)
  | EvShowError (title : string) (path : string) (e : exn).

(** ** A state and exception monad

    A method reads the world, updates the object it runs on, may raise, and
    leaves a trace.  Updates made before an exception stay. *)
Definition M (S A : Type) : Type := World -> S -> Result A * S * list Event.

#[export] Instance M_ret {S} : MRet (M S) :=
  fun A a _ s => (Return a, s, []).

#[export] Instance M_bind {S} : MBind (M S) :=
  fun A B f m w s =>
    match m w s with
    | (Return a, s1, t1) =>
        match f a w s1 with (r, s2, t2) => (r, s2, t1 ++ t2) end
    | (Raise e, s1, t1) => (Raise e, s1, t1)
    end.

Definition ask {S} : M S World := fun w s => (Return w, s, []).
Definition get_state {S} : M S S := fun _ s => (Return s, s, []).
Definition modify {S} (f : S -> S) : M S unit := fun _ s => (Return tt, f s, []).
Definition emit {S} (e : Event) : M S unit := fun _ s => (Return tt, s, [e]).
Definition lift_result {S A} (r : Result A) : M S A := fun _ s => (r, s, []).

(** [try: body except Exception as e: handler(e)] *)
Definition try_except {S A} (body : M S A) (handler : exn -> M S A) : M S A :=
  fun w s =>
    match body w s with
    | (Return a, s1, t1) => (Return a, s1, t1)
    | (Raise e, s1, t1) =>
        match handler e w s1 with (r, s2, t2) => (r, s2, t1 ++ t2) end
    end.

(** Run a method of a component held in a field of the object. *)
Definition zoom {S T A} (proj : S -> T) (upd : T -> S -> S) (m : M T A) : M S A :=
  fun w s => match m w (proj s) with (r, t', tr) => (r, upd t' s, tr) end.

(** [for x in l: body(x)] *)
Fixpoint for_each {S A} (l : list A) (body : A -> M S unit) : M S unit :=
  match l with
  | [] => mret tt
  | x :: l' => body x ≫= fun _ => for_each l' body
  end.

(** ** Formatting integers and cache keys *)

(** [str(z)] for a Python [int]: decimal digits after an optional minus
    sign. *)
Definition str_int (z : Z) : string := pretty z.

(** [str((w, h))] for a pair of [int]s. *)
Definition str_size (size : Z * Z) : string :=
  "(" +:+ str_int (fst size) +:+ ", " +:+ str_int (snd size) +:+ ")".

(** [key = f"{path}|{size}" if size else f"{path}|orig"] *)
Definition cache_key (path : string) (size : option (Z * Z)) : string :=
  match size with
  | Some sz => path +:+ "|" +:+ str_size sz
  | None => path +:+ "|orig"
  end.

(** ** [class ImageCache] *)

Record ImageCache : Type := {
  orig_cache : gmap string Image;
  thumb_cache : gmap string PhotoImage
}.

(** [ImageCache.__init__] *)
Definition ImageCache_init : ImageCache :=
  {| orig_cache := ∅; thumb_cache := ∅ |}.

Definition store_orig (path : string) (img : Image) (c : ImageCache) : ImageCache :=
  {| orig_cache := <[path := img]> (orig_cache c); thumb_cache := thumb_cache c |}.

Definition store_thumb (key : string) (tk : PhotoImage) (c : ImageCache) : ImageCache :=
  {| orig_cache := orig_cache c; thumb_cache := <[key := tk]> (thumb_cache c) |}.

(** [Image.open(path).convert("RGBA")] *)
Definition open_image (path : string) : M ImageCache Image :=
  fun w s => (image_open w path, s, [EvDecode path]).

(** [ImageCache._load_orig] *)
Definition _load_orig (path : string) : M ImageCache (option Image) :=
  w ← ask;
  if decide (path = "") then mret None
  else if negb (path_exists w path) then mret None
  else
    c ← get_state;
    match orig_cache c !! path with
    | Some img => mret (Some img)
    | None =>
        try_except
          (img ← open_image path;
           _ ← modify (store_orig path img);
           mret (Some img))
          (fun _ => mret None)
    end.

(** [ImageCache.get] *)
Definition get (path : string) (size : option (Z * Z))
  : M ImageCache (option PhotoImage) :=
  orig ← _load_orig path;
  match orig with
  | None => mret None
  | Some orig =>
      let key := cache_key path size in
      c ← get_state;
      match thumb_cache c !! key with
      | Some tk_img => mret (Some tk_img)
      | None =>
          img ← match size with
                | Some sz => lift_result (thumbnail orig sz)
                | None => mret orig
                end;
          let tk_img := {| photo_image := img |} in
          _ ← modify (store_thumb key tk_img);
          mret (Some tk_img)
      end
  end.

(** ** The option store *)

Definition CELL_WIDTH : Z := 220.
Definition CELL_HEIGHT : Z := 220.

Record Option : Type := {
  id : Z;
  name : string;
  image_path : string
}.

#[export] Instance Result_ret : MRet Result := fun A a => Return a.
#[export] Instance Result_bind : MBind Result :=
  fun A B f r => match r with Return a => f a | Raise e => Raise e end.

(** [int(v)] *)
Definition py_int (w : World) (v : pyval) : Result Z :=
  match v with
  | PyInt z => Return z
  | PyBool b => Return (if b then 1 else 0)
  | PyFloat nan => Raise ValueError
  | PyFloat (inf _) => Raise OverflowError
  | PyFloat (finite q) => Return (Z.quot (Qnum q) (Zpos (Qden q)))
  | PyStr s =>
      match int_of_str w s with
      | Some z => Return z
      | None => Raise ValueError
      end
  | PyNone | PyList _ | PyDict _ => Raise TypeError
  end.

(** [str(v)] *)
Definition py_str (w : World) (v : pyval) : string :=
  match v with
  | PyStr s => s
  | PyNone => "None"
  | PyBool true => "True"
  | PyBool false => "False"
  | PyInt z => str_int z
  | PyFloat _ | PyList _ | PyDict _ => repr w v
  end.

(** [d.get(key)] on a dict: the value, or [None] when the key is missing
    (a dict holds a key once). *)
Fixpoint dict_get (d : list (string * pyval)) (key : string) : pyval :=
  match d with
  | [] => PyNone
  | (k, v) :: d' => if String.eqb k key then v else dict_get d' key
  end.

(** [item.get(key)]: only a dict has the method. *)
Definition item_get (item : pyval) (key : string) : Result pyval :=
  match item with
  | PyDict d => Return (dict_get d key)
  | _ => Raise AttributeError
  end.

Fixpoint chars (s : string) : list pyval :=
  match s with
  | EmptyString => []
  | String c s' => PyStr (String c EmptyString) :: chars s'
  end.

(** The items [for item in raw] runs over: the elements of a list, the
    keys of a dict, the characters of a string; nothing else iterates. *)
Definition py_iter (raw : pyval) : Result (list pyval) :=
  match raw with
  | PyList l => Return l
  | PyDict d => Return (map (fun kv => PyStr (fst kv)) d)
  | PyStr s => Return (chars s)
  | _ => Raise TypeError
  end.

(** [Option(id=int(item.get("id")), name=str(item.get("name")),
            image_path=str(item.get("image")))] *)
Definition make_option (w : World) (item : pyval) : Result Option :=
  v_id ← item_get item "id";
  i ← py_int w v_id;
  v_name ← item_get item "name";
  v_image ← item_get item "image";
  mret {| id := i; name := py_str w v_name; image_path := py_str w v_image |}.

(** The loop of the second [try] block of [load_options_file]. *)
Fixpoint append_options (w : World) (items : list pyval) (options : list Option)
  : Result (list Option) :=
  match items with
  | [] => Return options
  | item :: items' =>
      o ← make_option w item;
      append_options w items' (options ++ [o])
  end.

Definition parse_options (w : World) (raw : pyval) : Result (list Option) :=
  items ← py_iter raw;
  append_options w items [].

(** [{o.name: o for o in options}]: a later option replaces an earlier one
    of the same name. *)
Definition index_by_name (options : list Option) : gmap string Option :=
  foldl (fun m o => <[name o := o]> m) ∅ options.

(** ** The grid *)

(** One cell: the text of its selector ([name_var]), the values its
    combobox offers, the image its label is configured to show and the
    reference kept in [img_label.image]. *)
Record Cell : Type := {
  name_var : string;
  combo_values : list string;
  img_label_shown : option PhotoImage;
  img_label_image : option PhotoImage
}.

Record NineGridApp : Type := {
  image_cache : ImageCache;
  options : list Option;
  option_names : list string;
  name_to_option : gmap string Option;
  cells : list Cell;
  status_var : string
}.

Definition set_image_cache (c : ImageCache) (app : NineGridApp) : NineGridApp :=
  {| image_cache := c; options := options app;
     option_names := option_names app; name_to_option := name_to_option app;
     cells := cells app; status_var := status_var app |}.

Definition set_options (opts : list Option) (app : NineGridApp) : NineGridApp :=
  {| image_cache := image_cache app; options := opts;
     option_names := map name opts; name_to_option := index_by_name opts;
     cells := cells app; status_var := status_var app |}.

Definition set_status (msg : string) (app : NineGridApp) : NineGridApp :=
  {| image_cache := image_cache app; options := options app;
     option_names := option_names app; name_to_option := name_to_option app;
     cells := cells app; status_var := msg |}.

Definition update_cell (i : nat) (f : Cell -> Cell) (app : NineGridApp) : NineGridApp :=
  {| image_cache := image_cache app; options := options app;
     option_names := option_names app; name_to_option := name_to_option app;
     cells := alter f i (cells app); status_var := status_var app |}.

(** The window after [_build_ui]: nine empty cells, status "ready". *)
Definition empty_cell : Cell :=
  {| name_var := ""; combo_values := [];
     img_label_shown := None; img_label_image := None |}.

Definition NineGridApp_built : NineGridApp :=
  {| image_cache := ImageCache_init; options := []; option_names := [];
     name_to_option := ∅; cells := replicate 9 empty_cell;
     status_var := "就緒。" |}.

(** [img_label.configure(image=tk_img if tk_img else "")] and
    [img_label.image = tk_img] *)
Definition set_label_image (tk_img : option PhotoImage) (c : Cell) : Cell :=
  {| name_var := name_var c; combo_values := combo_values c;
     img_label_shown := tk_img; img_label_image := tk_img |}.

(** [combo["values"] = names], then
    [if name_var.get() not in names: name_var.set("")] *)
Definition offer_names (names : list string) (c : Cell) : Cell :=
  {| name_var := if decide (name_var c ∈ names) then name_var c else "";
     combo_values := names;
     img_label_shown := img_label_shown c;
     img_label_image := img_label_image c |}.

(** [NineGridApp._refresh_cell_image], on the cell at index [i]. *)
Definition _refresh_cell_image (i : nat) : M NineGridApp unit :=
  app ← get_state;
  match cells app !! i with
  | None => mret tt
  | Some cell =>
      let opt := name_to_option app !! name_var cell in
      tk_img ← match opt with
               | Some o =>
                   zoom image_cache set_image_cache
                     (get (image_path o) (Some (CELL_WIDTH, CELL_HEIGHT)))
               | None => mret None
               end;
      modify (update_cell i (set_label_image tk_img))
  end.

(** The body of [for cell in self.cells] in [load_options_file]. *)
Definition reload_cell (i : nat) : M NineGridApp unit :=
  app ← get_state;
  _ ← modify (update_cell i (offer_names (option_names app)));
  _refresh_cell_image i.

(** [with open(path) as f: raw = json.load(f)] *)
Definition read_json (path : string) : M NineGridApp pyval :=
  fun w s => (json_load w path, s, []).

(** [NineGridApp.load_options_file] *)
Definition load_options_file (path : string) : M NineGridApp unit :=
  w ← ask;
  raw ← try_except
          (raw ← read_json path; mret (Some raw))
          (fun e => _ ← emit (EvShowError "Load Options Failed" path e);
                    mret None);
  match raw with
  | None => mret tt
  | Some raw =>
      parsed ← try_except
                 (options ← lift_result (parse_options w raw);
                  mret (Some options))
                 (fun e => _ ← emit (EvShowError "Invalid Options Format" path e);
                           mret None);
      match parsed with
      | None => mret tt
      | Some options =>
          _ ← modify (set_options options);
          app ← get_state;
          _ ← for_each (seq 0 (length (cells app))) reload_cell;
          modify (set_status ("已載入選項：" +:+ basename w path))
      end
  end.

(** Any sequence of calls on one cache, each in the world of its moment:
    [get(path, size)], or [_load_orig(path)] on its own. *)
Inductive Op : Type :=
  | OpGet (size : option (Z * Z))
  | OpLoadOrig.

Record Call : Type := {
  call_world : World;
  call_path : string;
  call_op : Op
}.

Definition run_call (c : ImageCache) (k : Call) : ImageCache :=
  match call_op k with
  | OpGet size => (get (call_path k) size (call_world k) c).1.2
  | OpLoadOrig => (_load_orig (call_path k) (call_world k) c).1.2
  end.

Definition run_calls (c : ImageCache) (ks : list Call) : ImageCache :=
  foldl run_call c ks.

Definition decodes (t : list Event) : list string :=
  omap (fun e => match e with EvDecode p => Some p | _ => None end) t.

(** ** Specification vocabulary *)

(** The image the thumbnail of a request is made from: [img.thumbnail(size)]
    on a copy when a size is given, the copy itself otherwise. *)
Definition render (orig : Image) (size : option (Z * Z)) : Result Image :=
  match size with
  | Some sz => thumbnail orig sz
  | None => Return orig
  end.

(** [out] is [img] scaled into the box [x] by [y]: the image does not fit
    the box, and [out] is a resampling of the whole of it to a size that
    fits the box, does not exceed the original, touches the box along one
    side and keeps the aspect ratio to within one pixel. *)
Definition scaled_into (img : Image) (x y : Z) (out : Image) : Prop :=
  let w := Zpos (width img) in
  let h := Zpos (height img) in
  let w' := Zpos (width out) in
  let h' := Zpos (height out) in
  ~ (w <= x /\ h <= y) /\
  pixels out = Resampled (pixels img) (0, 0, w, h) w' h' /\
  w' <= x /\ h' <= y /\ w' <= w /\ h' <= h /\
  ((h' = y /\ w * y <= x * h /\ Z.abs (w' * h - y * w) < h) \/
   (w' = x /\ x * h < w * y /\ Z.abs (h' * w - x * h) < w)).

(** No character of [s] is [c]. *)
Fixpoint avoids (c : ascii) (s : string) : Prop :=
  match s with
  | EmptyString => True
  | String a s' => a <> c /\ avoids c s'
  end.

(** After the calls [ks]: every thumbnail is filed under the key of a path
    and a size, next to the decoded original it was rendered from; every
    decoded original is what some call found when it opened the file. *)
Definition cache_ok (ks : list Call) (c : ImageCache) : Prop :=
  (forall key tk, thumb_cache c !! key = Some tk ->
     exists p sz img, key = cache_key p sz /\ orig_cache c !! p = Some img /\
                      render img sz = Return (photo_image tk)) /\
  (forall p img, orig_cache c !! p = Some img ->
     exists k, k ∈ ks /\ call_path k = p /\ p <> "" /\
               path_exists (call_world k) p = true /\
               image_open (call_world k) p = Return img).

(** The cell that one round of the reload loop leaves at a position. *)
Definition reloaded (names : list string) (tk : option PhotoImage) (c : Cell) : Cell :=
  set_label_image tk (offer_names names c).

(** What an element of the option list is accepted as: an object whose
    [id] coerces to an integer gives an option, whatever else it holds. *)
Definition accepted (w : World) (item : pyval) : option Option :=
  match item with
  | PyDict d =>
      match py_int w (dict_get d "id") with
      | Return i => Some {| id := i; name := py_str w (dict_get d "name");
                            image_path := py_str w (dict_get d "image") |}
      | Raise _ => None
      end
  | _ => None
  end.

(** ** Example worlds *)

(** [os.path.basename] on a POSIX path. *)
Fixpoint posix_basename_from (s acc : string) : string :=
  match s with
  | EmptyString => acc
  | String c s' =>
      if Ascii.eqb c "/" then posix_basename_from s' ""
      else posix_basename_from s' (acc +:+ String c "")
  end.

Definition posix_basename (s : string) : string := posix_basename_from s "".

(** [int(s)] on a plain decimal literal: an optional sign, then digits. *)
Fixpoint digits_value (s : string) (acc : Z) : option Z :=
  match s with
  | EmptyString => Some acc
  | String c s' =>
      let n := Z.of_N (N_of_ascii c) in
      if (48 <=? n) && (n <=? 57) then digits_value s' (10 * acc + (n - 48))
      else None
  end.

Definition decimal_literal (s : string) : option Z :=
  match s with
  | EmptyString => None
  | String "-" (String c s') => Z.opp <$> digits_value (String c s') 0
  | String "+" (String c s') => digits_value (String c s') 0
  | _ => digits_value s 0
  end.

(** A world given by its image files and by what the option file parses
    to.  A path exists when it is listed; a listed file decodes to its
    image, or fails to decode. *)
Definition world_of (files : list (string * Result Image)) (json : Result pyval)
  : World :=
  {| path_exists := fun p => bool_decide (is_Some (list_to_map (M := gmap string (Result Image)) files !! p));
     image_open := fun p => default (Raise OSError) (list_to_map (M := gmap string (Result Image)) files !! p);
     json_load := fun _ => json;
     basename := posix_basename;
     int_of_str := decimal_literal;
     repr := fun _ => "<repr>" |}.

Definition img_wide : Image := {| width := 1000; height := 500; pixels := Decoded 1 |}.
Definition img_small : Image := {| width := 100; height := 50; pixels := Decoded 3 |}.
Definition img_other : Image := {| width := 64; height := 64; pixels := Decoded 4 |}.

Definition no_json : Result pyval := Raise OSError.

Definition world_wide : World := world_of [("a.png", Return img_wide)] no_json.
Definition world_changed : World :=
  world_of [("a.png", Return img_other); ("b.png", Return img_small)] no_json.
Definition world_corrupt : World := world_of [("a.png", Raise (OtherError "UnidentifiedImageError"))] no_json.
Definition world_empty : World := world_of [] no_json.

Definition cell_box : option (Z * Z) := Some (CELL_WIDTH, CELL_HEIGHT).

(** The thumbnail of [img_wide] in the 220 x 220 box. *)
Definition thumb_wide : PhotoImage :=
  {| photo_image := {| width := 220; height := 110;
                       pixels := Resampled (Decoded 1) (0, 0, 1000, 500) 220 110 |} |}.

(** The cache after [get("a.png", (220, 220))] in [world_wide]. *)
Definition cache_wide : ImageCache :=
  (get "a.png" cell_box world_wide ImageCache_init).1.2.


Definition option_entry (i : Z) (n img : string) : pyval :=
  PyDict [("id", PyInt i); ("name", PyStr n); ("image", PyStr img)].

(** Two options named "A". *)
Definition json_duplicate : pyval :=
  PyList [option_entry 1 "A" "a.png"; option_entry 2 "B" "b.png";
          option_entry 3 "A" "c.png"].

(** An element with neither [name] nor [image]. *)
Definition json_id_only : pyval := PyList [PyDict [("id", PyInt 1)]].

(** A good element, then an element without [id]. *)
Definition json_no_id : pyval :=
  PyList [option_entry 1 "A" "a.png";
          PyDict [("name", PyStr "B"); ("image", PyStr "b.png")]].

Definition world_json (json : pyval) : World :=
  world_of [("a.png", Return img_wide)] (Return json).

(** The grid with one option "Z", selected in the first cell and shown
    there. *)
Definition app_selected : NineGridApp :=
  update_cell 0
    (fun c => set_label_image (Some thumb_wide)
                {| name_var := "Z"; combo_values := ["Z"];
                   img_label_shown := None; img_label_image := None |})
    (set_options [{| id := 9; name := "Z"; image_path := "a.png" |}]
       (set_image_cache cache_wide NineGridApp_built)).

(** ** The event handlers *)

(** [img_label.configure(image=tk_img)] and [img_label.image = tk_img].
    tkinter drops from the widget command every option whose value is
    [None], so configuring with [None] leaves what the label shows. *)
Definition configure_image (tk_img : option PhotoImage) (c : Cell) : Cell :=
  {| name_var := name_var c; combo_values := combo_values c;
     img_label_shown := match tk_img with
                        | Some b => Some b
                        | None => img_label_shown c
                        end;
     img_label_image := tk_img |}.

(** [NineGridApp._on_cell_change], with the variable and the label of the
    cell at index [i] (the two objects the handler of that cell is bound
    to). *)
Definition _on_cell_change (i : nat) : M NineGridApp unit :=
  app ← get_state;
  match cells app !! i with
  | None => mret tt
  | Some cell =>
      match name_to_option app !! name_var cell with
      | None => modify (update_cell i (set_label_image None))
      | Some o =>
          tk_img ← zoom image_cache set_image_cache
                     (get (image_path o) (Some (CELL_WIDTH, CELL_HEIGHT)));
          modify (update_cell i (configure_image tk_img))
      end
  end.

Definition set_name_var (value : string) (c : Cell) : Cell :=
  {| name_var := value; combo_values := combo_values c;
     img_label_shown := img_label_shown c;
     img_label_image := img_label_image c |}.

(** The event [<<ComboboxSelected>>] of the cell at index [i]: the user
    picks [value] in the read-only combobox, which offers its values
    only; Tk writes it to the text variable and runs the bound handler. *)
Definition combobox_selected (i : nat) (value : string) : M NineGridApp unit :=
  app ← get_state;
  match cells app !! i with
  | None => mret tt
  | Some cell =>
      if decide (value ∈ combo_values cell) then
        _ ← modify (update_cell i (set_name_var value));
        _on_cell_change i
      else mret tt
  end.

(** [combo.set("")] (the text variable follows the combobox),
    [img_label.configure(image="")] and [img_label.image = None] *)
Definition clear_cell (c : Cell) : Cell :=
  set_label_image None (set_name_var "" c).

(** The body of [for i in range(9)] in [on_clear_all]: [self.cells[i]]
    raises [IndexError] past the end of the list. *)
Definition clear_cell_at (i : nat) : M NineGridApp unit :=
  app ← get_state;
  match cells app !! i with
  | None => lift_result (Raise (OtherError "IndexError"))
  | Some _ => modify (update_cell i clear_cell)
  end.

(** [NineGridApp.on_clear_all] *)
Definition on_clear_all : M NineGridApp unit :=
  _ ← for_each (seq 0 9) clear_cell_at;
  modify (set_status "已清空所有欄位。").

(** What the user and the start-up do to the window, one step at a time,
    each in the world of its moment. *)
Inductive Action : Type :=
  | ActLoad (path : string)
  | ActSelect (i : nat) (value : string)
  | ActClearAll.

Definition perform (a : Action) : M NineGridApp unit :=
  match a with
  | ActLoad path => load_options_file path
  | ActSelect i value => combobox_selected i value
  | ActClearAll => on_clear_all
  end.

Definition run_action (app : NineGridApp) (wa : World * Action) : NineGridApp :=
  (perform wa.2 wa.1 app).1.2.

Definition run_actions (app : NineGridApp) (was : list (World * Action)) : NineGridApp :=
  foldl run_action app was.

(** ** The window size *)

(** What Tk reports to [_autosize_to_content]: the size the widgets ask
    for and the size of the screen, in pixels. *)
Record WinInfo : Type := {
  winfo_reqwidth : Z;
  winfo_reqheight : Z;
  winfo_screenwidth : Z;
  winfo_screenheight : Z
}.

(** [w] and [h] of [_autosize_to_content] *)
Definition autosize (q : WinInfo) : Z * Z :=
  (Z.min (winfo_reqwidth q + 20) (Z.max 640 (winfo_screenwidth q - 80)),
   Z.min (winfo_reqheight q + 20) (Z.max 480 (winfo_screenheight q - 120))).

(** [NineGridApp._autosize_to_content] when Tk answers: the argument of
    [self.geometry] and the arguments of [self.minsize]. *)
Definition _autosize_to_content (q : WinInfo) : string * (Z * Z) :=
  (str_int (autosize q).1 +:+ "x" +:+ str_int (autosize q).2,
   (winfo_reqwidth q, winfo_reqheight q)).

(** ** More specification vocabulary *)

(** The bitmap is one that the thumbnail map holds for the cell box. *)
Definition bitmap_cached (c : ImageCache) (o : option PhotoImage) : Prop :=
  forall b, o = Some b ->
    exists p, thumb_cache c !! cache_key p (Some (CELL_WIDTH, CELL_HEIGHT)) = Some b.

Definition cell_ok (names : list string) (c : ImageCache) (cell : Cell) : Prop :=
  combo_values cell = names /\
  (name_var cell = "" \/ name_var cell ∈ names) /\
  bitmap_cached c (img_label_shown cell) /\
  bitmap_cached c (img_label_image cell).

(** The state of the window between two events. *)
Definition app_ok (app : NineGridApp) : Prop :=
  option_names app = map name (options app) /\
  name_to_option app = index_by_name (options app) /\
  length (cells app) = 9%nat /\
  Forall (cell_ok (option_names app) (image_cache app)) (cells app) /\
  exists ks, image_cache app = run_calls ImageCache_init ks.

(** The window with another cache and other cells. *)
Definition with_cells (c : ImageCache) (cs : list Cell) (app : NineGridApp)
  : NineGridApp :=
  {| image_cache := c; options := options app;
     option_names := option_names app; name_to_option := name_to_option app;
     cells := cs; status_var := status_var app |}.

(** The reload loop told cell by cell, as a function of the list of cells:
    each cell is offered the names, then refreshed against the cache the
    cells before it have left. *)
Definition refresh_one (w : World) (index : gmap string Option) (c : ImageCache)
    (cell : Cell) : Cell * ImageCache * list Event :=
  match index !! name_var cell with
  | None => (set_label_image None cell, c, [])
  | Some o =>
      match get (image_path o) (Some (CELL_WIDTH, CELL_HEIGHT)) w c with
      | (Return tk, c', t) => (set_label_image tk cell, c', t)
      | (Raise _, c', t) => (cell, c', t)
      end
  end.

Fixpoint reload_cells (w : World) (names : list string) (index : gmap string Option)
    (c : ImageCache) (cs : list Cell) : list Cell * ImageCache * list Event :=
  match cs with
  | [] => ([], c, [])
  | cell :: rest =>
      let '(cell', c1, t1) := refresh_one w index c (offer_names names cell) in
      let '(rest', c2, t2) := reload_cells w names index c1 rest in
      (cell' :: rest', c2, t1 ++ t2)
  end.

(** * Properties *)

(** ** The size computed by [Image.thumbnail] *)

Lemma Qdiv_inject (a b : Z) :
  0 < b -> (inject_Z a / inject_Z b == a # Z.to_pos b)%Q.
Proof.
  intros Hb. destruct b as [|p|p]; try lia.
  unfold Qeq, Qdiv, Qmult, Qinv, inject_Z. simpl. lia.
Qed.

Lemma Qfloor_bounds (a : Z) (b : positive) :
  Qfloor (a # b) * Zpos b <= a < (Qfloor (a # b) + 1) * Zpos b.
Proof.
  simpl. pose proof (Z.div_mod a (Zpos b) ltac:(lia)).
  pose proof (Z.mod_pos_bound a (Zpos b) ltac:(lia)). nia.
Qed.

Lemma Qceiling_bounds (a : Z) (b : positive) :
  (Qceiling (a # b) - 1) * Zpos b < a <= Qceiling (a # b) * Zpos b.
Proof.
  unfold Qceiling. pose proof (Qfloor_bounds (- a) b) as H.
  change (- (a # b))%Q with (- a # b). lia.
Qed.

Lemma round_aspect_range (q : Q) (key : Z -> Q) :
  (0 < q)%Q ->
  Z.max 1 (Qfloor q) <= round_aspect q key <= Qceiling q.
Proof.
  intros Hq. unfold round_aspect.
  assert (Hc : 1 <= Qceiling q).
  { destruct q as [a b]. pose proof (Qceiling_bounds a b).
    unfold Qlt in Hq. simpl in Hq. nia. }
  pose proof (Qfloor_le q) as Hf. pose proof (Qle_ceiling q) as Hc'.
  assert (Qfloor q <= Qceiling q).
  { rewrite Zle_Qle. eapply Qle_trans; eauto. }
  destruct (Qlt_bool _ _); lia.
Qed.

Lemma round_aspect_frac (a : Z) (b : positive) (q : Q) (key : Z -> Q) :
  (q == a # b)%Q -> 0 < a ->
  1 <= round_aspect q key /\
  (round_aspect q key - 1) * Zpos b < a < (round_aspect q key + 1) * Zpos b.
Proof.
  intros Hq Ha.
  assert (Hpos : (0 < q)%Q).
  { rewrite Hq. unfold Qlt. simpl. lia. }
  pose proof (round_aspect_range q key Hpos) as Hr.
  rewrite (Qfloor_comp _ _ Hq), (Qceiling_comp _ _ Hq) in Hr.
  pose proof (Qfloor_bounds a b). pose proof (Qceiling_bounds a b).
  split; [lia | nia].
Qed.

Lemma preserve_aspect_ratio_spec (w h : positive) (x y : Z) :
  0 < x -> 0 < y ->
  (Zpos w <= x /\ Zpos h <= y /\
   preserve_aspect_ratio w h (x, y) = Return None) \/
  (exists x' y',
     preserve_aspect_ratio w h (x, y) = Return (Some (x', y')) /\
     ~ (Zpos w <= x /\ Zpos h <= y) /\
     1 <= x' <= x /\ 1 <= y' <= y /\ x' <= Zpos w /\ y' <= Zpos h /\
     ((y' = y /\ Zpos w * y <= x * Zpos h /\
       Z.abs (x' * Zpos h - y * Zpos w) < Zpos h) \/
      (x' = x /\ x * Zpos h < Zpos w * y /\
       Z.abs (y' * Zpos w - x * Zpos h) < Zpos w))).
Proof.
  intros Hx Hy. unfold preserve_aspect_ratio.
  destruct ((Zpos w <=? x) && (Zpos h <=? y)) eqn:Hb.
  - left. apply andb_true_iff in Hb as [H1 H2].
    apply Z.leb_le in H1, H2. auto.
  - right.
    assert (Hbox : ~ (Zpos w <= x /\ Zpos h <= y)).
    { intros [H1 H2]. apply Z.leb_le in H1, H2. rewrite H1, H2 in Hb. discriminate. }
    destruct (Z.eqb_spec y 0) as [|_]; [lia|].
    set (aspect := (inject_Z (Zpos w) / inject_Z (Zpos h))%Q).
    assert (Ha : (aspect == Zpos w # h)%Q) by (apply (Qdiv_inject (Zpos w) (Zpos h)); lia).
    assert (Hxy : (inject_Z x / inject_Z y == x # Z.to_pos y)%Q) by (apply Qdiv_inject; lia).
    destruct (Qle_bool aspect (inject_Z x / inject_Z y)) eqn:Hle.
    + apply Qle_bool_iff in Hle. rewrite Ha, Hxy in Hle.
      unfold Qle in Hle. simpl in Hle. rewrite Z2Pos.id in Hle by lia.
      eexists _, y. split; [reflexivity|].
      match goal with |- context [round_aspect ?q ?k] =>
        destruct (round_aspect_frac (y * Zpos w) h q k) as [Hr1 Hr2];
        [| | set (r := round_aspect q k) in *] end.
      { rewrite Ha. unfold Qeq, Qmult, inject_Z. simpl. lia. }
      { lia. }
      split; [exact Hbox|].
      repeat split; try lia; try nia.
    + assert (Hlt : ~ (aspect <= inject_Z x / inject_Z y)%Q).
      { intros Hc. apply Qle_bool_iff in Hc. congruence. }
      rewrite Ha, Hxy in Hlt.
      unfold Qle in Hlt. simpl in Hlt. rewrite Z2Pos.id in Hlt by lia.
      eexists x, _. split; [reflexivity|].
      match goal with |- context [round_aspect ?q ?k] =>
        destruct (round_aspect_frac (x * Zpos h) w q k) as [Hr1 Hr2];
        [| | set (r := round_aspect q k) in *] end.
      { rewrite Ha. destruct x as [|px|px]; try lia.
        unfold Qeq, Qdiv, Qmult, Qinv, inject_Z. simpl. lia. }
      { lia. }
      split; [exact Hbox|].
      repeat split; try lia; try nia.
Qed.


Lemma thumbnail_spec (img : Image) (x y : Z) :
  0 < x -> 0 < y ->
  exists out, thumbnail img (x, y) = Return out /\
    ((Zpos (width img) <= x /\ Zpos (height img) <= y /\ out = img) \/
     scaled_into img x y out).
Proof.
  intros Hx Hy. unfold thumbnail.
  destruct (preserve_aspect_ratio_spec (width img) (height img) x y Hx Hy)
    as [(H1 & H2 & ->) | (x' & y' & -> & Hbox & Hx' & Hy' & Hw & Hh & Hside)].
  - exists img. split; [reflexivity | left; auto].
  - destruct (decide _) as [Heq | _].
    { injection Heq as -> ->. lia. }
    unfold resize.
    destruct (Z.ltb_spec x' 1); [lia|]. destruct (Z.ltb_spec y' 1); [lia|].
    eexists. split; [reflexivity|]. right.
    unfold scaled_into. cbn [width height pixels].
    rewrite !Z2Pos.id by lia. repeat split; try lia.
Qed.

(** ** Cache keys are injective *)

Lemma avoids_app (c : ascii) (s1 s2 : string) :
  avoids c s1 -> avoids c s2 -> avoids c (s1 +:+ s2).
Proof. induction s1 as [|a s1 IH]; simpl; [auto | intros [? ?] ?; auto]. Qed.

Lemma avoids_pretty_N_go (c : ascii) (x : N) (s : string) :
  (forall d, pretty_N_char d <> c) -> avoids c s -> avoids c (pretty_N_go x s).
Proof.
  intros Hc. revert s.
  induction (N.lt_wf_0 x) as [x _ IH]. intros s Hs.
  destruct (decide (x = 0)%N) as [-> | Hne]; [exact Hs|].
  rewrite pretty_N_go_step by lia.
  apply IH; [apply N.div_lt; lia | simpl; auto].
Qed.

Lemma avoids_str_int (c : ascii) (z : Z) :
  (forall d, pretty_N_char d <> c) -> c <> "-"%char -> avoids c (str_int z).
Proof.
  intros Hc Hdash.
  assert (HN : forall n : N, avoids c (pretty n)).
  { intros n. unfold pretty, pretty_N. destruct (decide (n = 0)%N).
    - simpl. split; [apply (Hc 0%N) | exact I].
    - apply avoids_pretty_N_go; simpl; auto. }
  destruct z as [|p|p]; unfold str_int, pretty, pretty_Z.
  - simpl. split; [apply (Hc 0%N) | exact I].
  - apply HN.
  - simpl. split; [congruence | apply HN].
Qed.

Lemma digit_not_bar (d : N) : pretty_N_char d <> "|"%char.
Proof. unfold pretty_N_char. repeat case_match; discriminate. Qed.

Lemma digit_not_comma (d : N) : pretty_N_char d <> ","%char.
Proof. unfold pretty_N_char. repeat case_match; discriminate. Qed.

Lemma digit_not_paren (d : N) : pretty_N_char d <> ")"%char.
Proof. unfold pretty_N_char. repeat case_match; discriminate. Qed.

(** Splitting at the first occurrence of a character. *)
Lemma split_first (c : ascii) (s1 s2 r1 r2 : string) :
  avoids c s1 -> avoids c s2 ->
  s1 +:+ String c r1 = s2 +:+ String c r2 -> s1 = s2 /\ r1 = r2.
Proof.
  revert s2. induction s1 as [|a s1 IH]; intros [|b s2]; simpl.
  - intros _ _ [= ->]. auto.
  - intros _ [Hb _] [= <- _]. congruence.
  - intros [Ha _] _ [= -> _]. congruence.
  - intros [_ H1] [_ H2] [= -> Heq]. destruct (IH _ H1 H2 Heq) as [-> ->]. auto.
Qed.

Lemma not_avoids_mid (c : ascii) (p s : string) :
  ~ avoids c (p +:+ String c s).
Proof.
  induction p as [|x p IH]; simpl; [intros [? _]; congruence | intros [_ ?]; auto].
Qed.

(** Splitting at the last occurrence of a character. *)
Lemma split_last (c : ascii) (p1 p2 s1 s2 : string) :
  avoids c s1 -> avoids c s2 ->
  p1 +:+ String c s1 = p2 +:+ String c s2 -> p1 = p2 /\ s1 = s2.
Proof.
  intros H1 H2. revert p2. induction p1 as [|a p1 IH]; intros [|b p2]; simpl.
  - intros [= ->]. auto.
  - intros [= _ Hs]. rewrite Hs in H1. destruct (not_avoids_mid _ _ _ H1).
  - intros [= _ Hs]. rewrite <- Hs in H2. destruct (not_avoids_mid _ _ _ H2).
  - intros [= -> Heq]. destruct (IH _ Heq) as [-> ->]. auto.
Qed.

Lemma str_size_inj (a b : Z * Z) : str_size a = str_size b -> a = b.
Proof.
  destruct a as [a1 a2], b as [b1 b2]. unfold str_size. simpl.
  intros [= Heq].
  apply (split_first ","%char) in Heq as [H1 H2];
    [| apply avoids_str_int; [apply digit_not_comma | discriminate] ..].
  injection H2 as H2.
  apply (split_first ")"%char) in H2 as [H2 _];
    [| apply avoids_str_int; [apply digit_not_paren | discriminate] ..].
  apply (inj pretty) in H1, H2. congruence.
Qed.

Lemma avoids_bar_str_size (a : Z * Z) : avoids "|"%char (str_size a).
Proof.
  destruct a as [a1 a2]. unfold str_size. cbn [fst snd].
  repeat apply avoids_app;
    try (apply avoids_str_int; [apply digit_not_bar | discriminate]);
    simpl; repeat split; discriminate.
Qed.

Lemma cache_key_inj (p1 p2 : string) (s1 s2 : option (Z * Z)) :
  cache_key p1 s1 = cache_key p2 s2 -> p1 = p2 /\ s1 = s2.
Proof.
  assert (Ho : avoids "|"%char "orig") by (simpl; repeat split; discriminate).
  destruct s1 as [a|], s2 as [b|]; unfold cache_key; intros Heq;
    apply (split_last "|"%char) in Heq as [-> Hs];
    auto using avoids_bar_str_size.
  - apply str_size_inj in Hs. subst. auto.
  - unfold str_size in Hs. discriminate.
  - unfold str_size in Hs. discriminate.
Qed.

(** ** [ImageCache]: the two methods, case by case *)

Lemma _load_orig_unfold (path : string) (w : World) (c : ImageCache) :
  _load_orig path w c =
  if decide (path = "") then (Return None, c, [])
  else if negb (path_exists w path) then (Return None, c, [])
  else match orig_cache c !! path with
       | Some img => (Return (Some img), c, [])
       | None =>
           match image_open w path with
           | Return img => (Return (Some img), store_orig path img c, [EvDecode path])
           | Raise _ => (Return None, c, [EvDecode path])
           end
       end.
Proof.
  unfold _load_orig, mbind, M_bind, ask. simpl.
  destruct (decide (path = "")); [reflexivity|].
  destruct (negb (path_exists w path)); [reflexivity|].
  unfold get_state. simpl.
  destruct (orig_cache c !! path); [reflexivity|].
  unfold try_except, open_image, modify, mret, M_ret.
  destruct (image_open w path); reflexivity.
Qed.

Lemma get_unfold (path : string) (size : option (Z * Z)) (w : World) (c : ImageCache) :
  get path size w c =
  match _load_orig path w c with
  | (Return None, c1, t) => (Return None, c1, t)
  | (Return (Some orig), c1, t) =>
      match thumb_cache c1 !! cache_key path size with
      | Some tk_img => (Return (Some tk_img), c1, t)
      | None =>
          match render orig size with
          | Return img =>
              (Return (Some {| photo_image := img |}),
               store_thumb (cache_key path size) {| photo_image := img |} c1, t)
          | Raise e => (Raise e, c1, t)
          end
      end
  | (Raise e, c1, t) => (Raise e, c1, t)
  end.
Proof.
  unfold get, mbind, M_bind at 1.
  destruct (_load_orig path w c) as [[[[orig|]|e] c1] t]; try reflexivity.
  - unfold M_bind, get_state.
    destruct (thumb_cache c1 !! cache_key path size).
    + simpl. rewrite app_nil_r. reflexivity.
    + unfold render, lift_result, modify. destruct size as [sz|]; simpl.
      * destruct (thumbnail orig sz); simpl; rewrite ?app_nil_r; reflexivity.
      * rewrite ?app_nil_r. reflexivity.
  - simpl. rewrite app_nil_r. reflexivity.
Qed.

Lemma _load_orig_absent (path : string) (w : World) (c : ImageCache) :
  path = "" \/ path_exists w path = false ->
  _load_orig path w c = (Return None, c, []).
Proof.
  intros H. rewrite _load_orig_unfold.
  destruct (decide (path = "")); [reflexivity|].
  destruct H as [H | H]; [contradiction | rewrite H; reflexivity].
Qed.

Lemma get_absent (path : string) (size : option (Z * Z)) (w : World) (c : ImageCache) :
  path = "" \/ path_exists w path = false ->
  get path size w c = (Return None, c, []).
Proof. intros H. rewrite get_unfold, _load_orig_absent by exact H. reflexivity. Qed.

Lemma _load_orig_decode_fail (path : string) (w : World) (c : ImageCache) (e : exn) :
  path <> "" -> path_exists w path = true ->
  orig_cache c !! path = None -> image_open w path = Raise e ->
  _load_orig path w c = (Return None, c, [EvDecode path]).
Proof.
  intros Hne Hex Hc Ho. rewrite _load_orig_unfold, Hex, Hc, Ho.
  destruct (decide (path = "")); [contradiction | reflexivity].
Qed.

Lemma get_decode_fail (path : string) (size : option (Z * Z)) (w : World)
    (c : ImageCache) (e : exn) :
  path <> "" -> path_exists w path = true ->
  orig_cache c !! path = None -> image_open w path = Raise e ->
  get path size w c = (Return None, c, [EvDecode path]).
Proof.
  intros. rewrite get_unfold. erewrite _load_orig_decode_fail by eauto. reflexivity.
Qed.

Lemma get_hit (path : string) (size : option (Z * Z)) (w : World) (c : ImageCache)
    (img : Image) (tk : PhotoImage) :
  path <> "" -> path_exists w path = true ->
  orig_cache c !! path = Some img ->
  thumb_cache c !! cache_key path size = Some tk ->
  get path size w c = (Return (Some tk), c, []).
Proof.
  intros Hne Hex Ho Ht. rewrite get_unfold, _load_orig_unfold, Hex, Ho.
  destruct (decide (path = "")); [contradiction|]. simpl. rewrite Ht. reflexivity.
Qed.

(** What one call of [get] does to the two maps. *)
Lemma get_step (path : string) (size : option (Z * Z)) (w : World) (c : ImageCache) :
  let c1 := (get path size w c).1.2 in
  (orig_cache c1 = orig_cache c \/
   (orig_cache c !! path = None /\ path <> "" /\ path_exists w path = true /\
    exists img, image_open w path = Return img /\
                orig_cache c1 = <[path := img]> (orig_cache c))) /\
  (thumb_cache c1 = thumb_cache c \/
   (thumb_cache c !! cache_key path size = None /\
    exists img out, orig_cache c1 !! path = Some img /\
                    render img size = Return out /\
                    thumb_cache c1 =
                      <[cache_key path size := {| photo_image := out |}]> (thumb_cache c))).
Proof.
  rewrite get_unfold, _load_orig_unfold.
  destruct (decide (path = "")) as [|Hne]; [simpl; auto|].
  destruct (path_exists w path) eqn:Hex; [|simpl; auto]. simpl.
  destruct (orig_cache c !! path) as [img|] eqn:Ho.
  - destruct (thumb_cache c !! cache_key path size) eqn:Ht; [simpl; auto|].
    destruct (render img size) as [out|e] eqn:Hr; [|simpl; auto].
    simpl. split; [auto|]. right. split; [auto|]. exists img, out. auto.
  - destruct (image_open w path) as [img|e] eqn:Hi; [|simpl; auto].
    cbn [store_orig thumb_cache].
    destruct (thumb_cache c !! cache_key path size) eqn:Ht.
    + simpl. split; [|auto]. right. repeat split; auto. exists img. auto.
    + destruct (render img size) as [out|e] eqn:Hr; simpl.
      * split.
        { right. repeat split; auto. exists img. auto. }
        { right. split; [auto|]. exists img, out. rewrite lookup_insert_eq. auto. }
      * split; [|auto]. right. repeat split; auto. exists img. auto.
Qed.

Lemma _load_orig_step (path : string) (w : World) (c : ImageCache) :
  let c1 := (_load_orig path w c).1.2 in
  (orig_cache c1 = orig_cache c \/
   (orig_cache c !! path = None /\ path <> "" /\ path_exists w path = true /\
    exists img, image_open w path = Return img /\
                orig_cache c1 = <[path := img]> (orig_cache c))) /\
  thumb_cache c1 = thumb_cache c.
Proof.
  rewrite _load_orig_unfold.
  destruct (decide (path = "")) as [|Hne]; [simpl; auto|].
  destruct (path_exists w path) eqn:Hex; [|simpl; auto]. simpl.
  destruct (orig_cache c !! path) as [img|] eqn:Ho; [simpl; auto|].
  destruct (image_open w path) as [img|e] eqn:Hi; [|simpl; auto].
  simpl. split; [|reflexivity]. right. repeat split; auto. exists img. auto.
Qed.

(** What one call does to the two maps. *)
Lemma run_call_step (k : Call) (c : ImageCache) :
  let c1 := run_call c k in
  (orig_cache c1 = orig_cache c \/
   (orig_cache c !! call_path k = None /\ call_path k <> "" /\
    path_exists (call_world k) (call_path k) = true /\
    exists img, image_open (call_world k) (call_path k) = Return img /\
                orig_cache c1 = <[call_path k := img]> (orig_cache c))) /\
  (thumb_cache c1 = thumb_cache c \/
   exists size img out,
     thumb_cache c !! cache_key (call_path k) size = None /\
     orig_cache c1 !! call_path k = Some img /\
     render img size = Return out /\
     thumb_cache c1 =
       <[cache_key (call_path k) size := {| photo_image := out |}]> (thumb_cache c)).
Proof.
  unfold run_call. destruct (call_op k) as [size|].
  - destruct (get_step (call_path k) size (call_world k) c) as [Ho Ht].
    split; [exact Ho|].
    destruct Ht as [Ht | (Hn & img & out & H1 & H2 & H3)]; [auto|].
    right. exists size, img, out. auto.
  - destruct (_load_orig_step (call_path k) (call_world k) c) as [Ho Ht]. auto.
Qed.

(** Entries are never replaced and never removed. *)
Lemma run_call_keeps (k : Call) (c : ImageCache) :
  (forall p img, orig_cache c !! p = Some img ->
                 orig_cache (run_call c k) !! p = Some img) /\
  (forall key tk, thumb_cache c !! key = Some tk ->
                  thumb_cache (run_call c k) !! key = Some tk).
Proof.
  destruct (run_call_step k c) as [Ho Ht]. cbv zeta in *. split.
  - intros p img Hp. destruct Ho as [-> | (Hnone & _ & _ & im & _ & ->)]; [exact Hp|].
    rewrite lookup_insert_ne; [exact Hp | congruence].
  - intros key tk Hk.
    destruct Ht as [-> | (size & im & out & Hnone & _ & _ & ->)]; [exact Hk|].
    rewrite lookup_insert_ne; [exact Hk | congruence].
Qed.

Lemma run_calls_keeps (ks : list Call) (c : ImageCache) :
  (forall p img, orig_cache c !! p = Some img ->
                 orig_cache (run_calls c ks) !! p = Some img) /\
  (forall k tk, thumb_cache c !! k = Some tk ->
                thumb_cache (run_calls c ks) !! k = Some tk).
Proof.
  revert c. induction ks as [|k ks IH]; intros c; [simpl; auto|].
  cbn [run_calls foldl]. fold (run_calls (run_call c k) ks).
  destruct (IH (run_call c k)) as [IHo IHt].
  destruct (run_call_keeps k c) as [Ko Kt].
  split; intros; [apply IHo, Ko | apply IHt, Kt]; assumption.
Qed.

(** A bitmap that [get] returns is in the thumbnail map afterwards, next to
    the decoded original. *)
Lemma get_returned_stored (path : string) (size : option (Z * Z)) (w : World)
    (c c1 : ImageCache) (b : PhotoImage) (t : list Event) :
  get path size w c = (Return (Some b), c1, t) ->
  path <> "" /\ path_exists w path = true /\
  thumb_cache c1 !! cache_key path size = Some b /\
  is_Some (orig_cache c1 !! path).
Proof.
  rewrite get_unfold, _load_orig_unfold.
  destruct (decide (path = "")) as [|Hne]; [discriminate|].
  destruct (path_exists w path) eqn:Hex; [|discriminate]. simpl.
  destruct (orig_cache c !! path) as [img|] eqn:Ho.
  - destruct (thumb_cache c !! cache_key path size) eqn:Ht.
    + intros [= <- <- <-]. rewrite Ho. eauto.
    + destruct (render img size); [|discriminate].
      intros [= <- <- <-]. simpl. rewrite lookup_insert_eq, Ho. eauto.
  - destruct (image_open w path) as [img|e]; [|discriminate].
    cbn [store_orig thumb_cache].
    destruct (thumb_cache c !! cache_key path size) eqn:Ht.
    + intros [= <- <- <-]. simpl. rewrite lookup_insert_eq. eauto.
    + destruct (render img size); [|discriminate].
      intros [= <- <- <-]. simpl. rewrite !lookup_insert_eq. eauto.
Qed.

(** ** The invariant of the two maps *)

Lemma cache_ok_init : cache_ok [] ImageCache_init.
Proof. split; simpl; intros ? ?; rewrite lookup_empty; discriminate. Qed.

Lemma cache_ok_step (ks : list Call) (c : ImageCache) (k : Call) :
  cache_ok ks c -> cache_ok (ks ++ [k]) (run_call c k).
Proof.
  intros [It Io].
  destruct (run_call_step k c) as [Ho Ht].
  destruct (run_call_keeps k c) as [Ko _].
  cbv zeta in *.
  set (c1 := run_call c k) in *.
  split.
  - intros key tk Hkey.
    assert (Hold : thumb_cache c !! key = Some tk ->
      exists p sz img, key = cache_key p sz /\ orig_cache c1 !! p = Some img /\
                       render img sz = Return (photo_image tk)).
    { intros H. destruct (It _ _ H) as (p & sz & img & ? & ? & ?).
      exists p, sz, img. auto. }
    destruct Ht as [Ht | (size & img & out & _ & Himg & Hr & Ht)];
      rewrite Ht in Hkey; [auto|].
    destruct (decide (cache_key (call_path k) size = key)) as [<- | Hne].
    + rewrite lookup_insert_eq in Hkey. injection Hkey as <-.
      exists (call_path k), size, img. auto.
    + rewrite lookup_insert_ne in Hkey by exact Hne. auto.
  - intros p img Hp.
    assert (Hold : orig_cache c !! p = Some img ->
      exists k0, k0 ∈ ks ++ [k] /\ call_path k0 = p /\ p <> "" /\
                 path_exists (call_world k0) p = true /\
                 image_open (call_world k0) p = Return img).
    { intros H. destruct (Io _ _ H) as (k0 & ? & ?).
      exists k0. split; [apply elem_of_app; auto | auto]. }
    destruct Ho as [Ho | (_ & Hne & Hex & im & Hi & Ho)]; rewrite Ho in Hp; [auto|].
    destruct (decide (call_path k = p)) as [<- | Hnp].
    + rewrite lookup_insert_eq in Hp. injection Hp as <-.
      exists k. split; [apply elem_of_app; right; apply list_elem_of_singleton; auto | auto].
    + rewrite lookup_insert_ne in Hp by exact Hnp. auto.
Qed.

Lemma run_calls_snoc (c : ImageCache) (ks : list Call) (k : Call) :
  run_calls c (ks ++ [k]) = run_call (run_calls c ks) k.
Proof. unfold run_calls. rewrite foldl_app. reflexivity. Qed.

Lemma cache_ok_run (ks : list Call) : cache_ok ks (run_calls ImageCache_init ks).
Proof.
  induction ks as [|k ks IH] using rev_ind; [apply cache_ok_init|].
  rewrite run_calls_snoc. apply cache_ok_step, IH.
Qed.

Lemma cache_ok_thumb (ks : list Call) (c : ImageCache) (p : string)
    (sz : option (Z * Z)) (tk : PhotoImage) :
  cache_ok ks c -> thumb_cache c !! cache_key p sz = Some tk ->
  exists img, orig_cache c !! p = Some img /\ render img sz = Return (photo_image tk).
Proof.
  intros [It _] H. destruct (It _ _ H) as (p' & sz' & img & Hk & Ho & Hr).
  apply cache_key_inj in Hk as [-> ->]. eauto.
Qed.

(** ** Repeated requests *)

(** C1 (as amended).  Once [get(path, size)] has returned a bitmap, that
    bitmap is in the thumbnail map, and every later [get] with the same
    path and size, after any calls in between and whatever the file now
    holds, returns that same bitmap without a decode and leaves the cache
    as it is, provided the path still resolves to an existing file at that
    moment. *)
Theorem get_again_same_bitmap (w w' : World) (c c1 : ImageCache) (path : string)
    (size : option (Z * Z)) (b : PhotoImage) (t1 : list Event) (ks : list Call) :
  get path size w c = (Return (Some b), c1, t1) ->
  path_exists w' path = true ->
  thumb_cache c1 !! cache_key path size = Some b /\
  get path size w' (run_calls c1 ks) = (Return (Some b), run_calls c1 ks, []).
Proof.
  intros Hget Hex.
  destruct (get_returned_stored _ _ _ _ _ _ _ Hget) as (Hne & _ & Ht & [img Ho]).
  split; [exact Ht|].
  destruct (run_calls_keeps ks c1) as [Ko Kt].
  apply (get_hit path size w' _ img b Hne Hex); auto.
Qed.

Lemma get_again_same_bitmap_witness :
  thumb_cache cache_wide !! cache_key "a.png" cell_box = Some thumb_wide /\
  get "a.png" cell_box world_changed
      (run_calls cache_wide
         [{| call_world := world_changed; call_path := "b.png"; call_op := OpGet None |}])
  = (Return (Some thumb_wide),
     run_calls cache_wide
       [{| call_world := world_changed; call_path := "b.png"; call_op := OpGet None |}],
     []).
Proof.
  apply (get_again_same_bitmap world_wide world_changed ImageCache_init cache_wide
           "a.png" cell_box thumb_wide [EvDecode "a.png"]).
  - vm_compute. reflexivity.
  - vm_compute. reflexivity.
Defined.

(** C1, as stated, fails: the first call returns a bitmap and stores it;
    the file is then deleted; the next call with the same path and size
    returns absent, although the bitmap is still in the thumbnail map. *)
Lemma get_again_after_delete :
  get "a.png" cell_box world_wide ImageCache_init
    = (Return (Some thumb_wide), cache_wide, [EvDecode "a.png"]) /\
  thumb_cache cache_wide !! cache_key "a.png" cell_box = Some thumb_wide /\
  get "a.png" cell_box world_empty cache_wide = (Return None, cache_wide, []).
Proof. vm_compute. auto. Qed.

(** ** Missing and undecodable files *)

(** C4.  An empty path, a path that does not exist, and a file that exists
    but fails to decode all give absent, from [_load_orig] and from [get],
    with or without a size; nothing is raised and the cache is unchanged. *)
Theorem get_absent_or_undecodable (w : World) (c : ImageCache) (path : string)
    (size : option (Z * Z)) :
  path = "" \/ path_exists w path = false \/
  (orig_cache c !! path = None /\ exists e, image_open w path = Raise e) ->
  exists t, _load_orig path w c = (Return None, c, t) /\
            get path size w c = (Return None, c, t).
Proof.
  intros H.
  destruct (decide (path = "")) as [He | Hne].
  { exists []. split; [apply _load_orig_absent | apply get_absent]; auto. }
  destruct (path_exists w path) eqn:Hex.
  - destruct H as [H | [H | [Hc [e Ho]]]]; [contradiction | discriminate |].
    exists [EvDecode path].
    split; [eapply _load_orig_decode_fail | eapply get_decode_fail]; eauto.
  - exists []. split; [apply _load_orig_absent | apply get_absent]; auto.
Qed.

Lemma get_absent_or_undecodable_witness :
  exists t, _load_orig "a.png" world_corrupt ImageCache_init
              = (Return None, ImageCache_init, t) /\
            get "a.png" cell_box world_corrupt ImageCache_init
              = (Return None, ImageCache_init, t).
Proof.
  apply (get_absent_or_undecodable world_corrupt ImageCache_init "a.png" cell_box).
  right. right. split.
  - vm_compute. reflexivity.
  - exists (OtherError "UnidentifiedImageError"). vm_compute. reflexivity.
Defined.

(** C10.  The existence of the file is checked before either map is
    looked at: when the path no longer exists, [get] and [_load_orig]
    return absent although the decoded original and the thumbnail of this
    path and size are both cached; no decode is tried and the cache keeps
    its entries. *)
Theorem get_checks_existence_first (w : World) (c : ImageCache) (path : string)
    (size : option (Z * Z)) (img : Image) (tk : PhotoImage) :
  orig_cache c !! path = Some img ->
  thumb_cache c !! cache_key path size = Some tk ->
  path_exists w path = false ->
  _load_orig path w c = (Return None, c, []) /\
  get path size w c = (Return None, c, []).
Proof.
  intros _ _ Hex. split; [apply _load_orig_absent | apply get_absent]; auto.
Qed.

Lemma get_checks_existence_first_witness :
  _load_orig "a.png" world_empty cache_wide = (Return None, cache_wide, []) /\
  get "a.png" cell_box world_empty cache_wide = (Return None, cache_wide, []).
Proof.
  apply (get_checks_existence_first world_empty cache_wide "a.png" cell_box
           img_wide thumb_wide).
  - vm_compute. reflexivity.
  - vm_compute. reflexivity.
  - vm_compute. reflexivity.
Defined.

(** ** The two maps *)

(** C5.  After any sequence of [get] and [_load_orig] calls on a fresh
    cache, in any worlds: a thumbnail entry of a path exists only next to
    the decoded original of that path, which some call decoded
    successfully and stored; every key of the thumbnail map is the key of
    a path and a size; and a decode that fails stores nothing in either
    map, so that the next request for the path, if the file exists,
    decodes again. *)
Theorem thumbnails_follow_decodes (ks : list Call) :
  let c := run_calls ImageCache_init ks in
  (forall p sz, is_Some (thumb_cache c !! cache_key p sz) ->
     exists img k, orig_cache c !! p = Some img /\ k ∈ ks /\ call_path k = p /\
                   image_open (call_world k) p = Return img) /\
  (forall key, is_Some (thumb_cache c !! key) -> exists p sz, key = cache_key p sz) /\
  (forall w p sz e,
     p <> "" -> path_exists w p = true ->
     orig_cache c !! p = None -> image_open w p = Raise e ->
     get p sz w c = (Return None, c, [EvDecode p]) /\
     forall w' sz', path_exists w' p = true -> decodes (get p sz' w' c).2 = [p]).
Proof.
  intros c. pose proof (cache_ok_run ks) as Hok. fold c in Hok.
  split; [|split].
  - intros p sz [tk Htk].
    destruct (cache_ok_thumb _ _ _ _ _ Hok Htk) as (img & Ho & _).
    destruct Hok as [_ Io]. destruct (Io _ _ Ho) as (k & Hin & Hp & _ & _ & Hi).
    exists img, k. auto.
  - intros key [tk Htk]. destruct Hok as [It _].
    destruct (It _ _ Htk) as (p & sz & _ & -> & _). eauto.
  - intros w p sz e Hne Hex Hc Hi. split.
    + eapply get_decode_fail; eauto.
    + intros w' sz' Hex'. rewrite get_unfold, _load_orig_unfold, Hex', Hc.
      destruct (decide (p = "")); [contradiction|]. simpl.
      destruct (image_open w' p) as [img|e']; [|reflexivity].
      cbn [store_orig thumb_cache].
      destruct (thumb_cache c !! cache_key p sz'); [reflexivity|].
      destruct (render img sz'); reflexivity.
Qed.

Lemma thumbnails_follow_decodes_witness :
  let c := run_calls ImageCache_init
             [{| call_world := world_corrupt; call_path := "a.png"; call_op := OpGet cell_box |}] in
  get "a.png" cell_box world_corrupt c = (Return None, c, [EvDecode "a.png"]) /\
  decodes (get "a.png" cell_box world_wide c).2 = ["a.png"].
Proof.
  intros c.
  destruct (thumbnails_follow_decodes
              [{| call_world := world_corrupt; call_path := "a.png"; call_op := OpGet cell_box |}])
    as (_ & _ & H).
  destruct (H world_corrupt "a.png" cell_box (OtherError "UnidentifiedImageError"))
    as [H1 H2].
  - discriminate.
  - vm_compute. reflexivity.
  - vm_compute. reflexivity.
  - vm_compute. reflexivity.
  - split; [exact H1 | apply H2; vm_compute; reflexivity].
Defined.

(** ** Containment scaling *)

Lemma get_returned_rendered (ks : list Call) (w : World) (path : string)
    (size : option (Z * Z)) (b : PhotoImage) (c1 : ImageCache) (t : list Event) :
  get path size w (run_calls ImageCache_init ks) = (Return (Some b), c1, t) ->
  exists img, orig_cache c1 !! path = Some img /\
              render img size = Return (photo_image b).
Proof.
  intros Hget.
  destruct (get_returned_stored _ _ _ _ _ _ _ Hget) as (_ & _ & Ht & _).
  pose proof (cache_ok_step ks _
    {| call_world := w; call_path := path; call_op := OpGet size |} (cache_ok_run ks)) as Hok.
  unfold run_call in Hok. cbn [call_world call_path call_op] in Hok.
  rewrite Hget in Hok. simpl in Hok.
  eapply cache_ok_thumb; eauto.
Qed.







(** ** The option store and the grid *)

(** In the cell box, [get] never raises, and all it does outside is
    decode. *)
Lemma get_cell_box_returns (path : string) (w : World) (c : ImageCache) :
  exists r c' t, get path (Some (CELL_WIDTH, CELL_HEIGHT)) w c = (Return r, c', t) /\
                 forall e, e ∈ t -> e = EvDecode path.
Proof.
  assert (Hnil : forall e : Event, e ∈ [] -> e = EvDecode path)
    by (intros e H; inversion H).
  assert (Hone : forall e : Event, e ∈ [EvDecode path] -> e = EvDecode path)
    by (intros e H; apply list_elem_of_singleton in H; exact H).
  rewrite get_unfold, _load_orig_unfold.
  destruct (decide (path = "")); [eauto 6|].
  destruct (negb (path_exists w path)); [eauto 6|].
  destruct (orig_cache c !! path) as [img|].
  - destruct (thumb_cache c !! _); [eauto 6|].
    destruct (thumbnail_spec img CELL_WIDTH CELL_HEIGHT) as (out & Hout & _);
      [reflexivity | reflexivity |].
    unfold render. rewrite Hout. eauto 6.
  - destruct (image_open w path) as [img|e]; [|eauto 6].
    destruct (thumb_cache _ !! _); [eauto 6|].
    destruct (thumbnail_spec img CELL_WIDTH CELL_HEIGHT) as (out & Hout & _);
      [reflexivity | reflexivity |].
    unfold render. rewrite Hout. eauto 6.
Qed.

Lemma alter_at (f : Cell -> Cell) (i : nat) (l : list Cell) (x : Cell) :
  l !! i = Some x -> alter f i l = <[i := f x]> l.
Proof.
  intros H. rewrite list_insert_alter.
  apply list_alter_ext; [|reflexivity]. intros y Hy. congruence.
Qed.

Lemma _refresh_cell_image_unfold (i : nat) (w : World) (app : NineGridApp) :
  _refresh_cell_image i w app =
  match cells app !! i with
  | None => (Return tt, app, [])
  | Some cell =>
      match name_to_option app !! name_var cell with
      | None => (Return tt, update_cell i (set_label_image None) app, [])
      | Some o =>
          match get (image_path o) (Some (CELL_WIDTH, CELL_HEIGHT)) w (image_cache app) with
          | (Return tk, c', t) =>
              (Return tt,
               update_cell i (set_label_image tk) (set_image_cache c' app), t)
          | (Raise e, c', t) => (Raise e, set_image_cache c' app, t)
          end
      end
  end.
Proof.
  unfold _refresh_cell_image, mbind, M_bind, get_state.
  destruct (cells app !! i) as [cell|]; [|reflexivity].
  destruct (name_to_option app !! name_var cell) as [o|]; [|reflexivity].
  unfold zoom, modify.
  destruct (get _ _ _ _) as [[[tk|e] c'] t]; [|reflexivity].
  rewrite app_nil_r. reflexivity.
Qed.

Lemma reload_cell_unfold (i : nat) (w : World) (app : NineGridApp) :
  reload_cell i w app =
  _refresh_cell_image i w (update_cell i (offer_names (option_names app)) app).
Proof.
  unfold reload_cell, mbind, M_bind, get_state, modify.
  destruct (_refresh_cell_image _ _ _) as [[r a] t]. reflexivity.
Qed.

Lemma reload_cell_spec (i : nat) (w : World) (app : NineGridApp) (cell : Cell) :
  cells app !! i = Some cell ->
  exists tk cache' t,
    reload_cell i w app =
      (Return tt,
       {| image_cache := cache'; options := options app;
          option_names := option_names app; name_to_option := name_to_option app;
          cells := <[i := reloaded (option_names app) tk cell]> (cells app);
          status_var := status_var app |}, t) /\
    (name_to_option app !! name_var (offer_names (option_names app) cell) = None ->
     tk = None) /\
    (forall e, e ∈ t -> exists p, e = EvDecode p).
Proof.
  intros Hcell.
  rewrite reload_cell_unfold, _refresh_cell_image_unfold.
  cbn [update_cell cells name_to_option image_cache].
  rewrite list_lookup_alter_eq, Hcell. cbn [fmap option_fmap option_map].
  set (cell1 := offer_names (option_names app) cell).
  assert (Hcells : forall tk,
    alter (set_label_image tk) i (alter (offer_names (option_names app)) i (cells app))
    = <[i := reloaded (option_names app) tk cell]> (cells app)).
  { intros tk. rewrite list_alter_alter_eq. apply alter_at. exact Hcell. }
  destruct (name_to_option app !! name_var cell1) as [o|] eqn:Hopt.
  - destruct (get_cell_box_returns (image_path o) w (image_cache app))
      as (r & c' & t & Hget & Ht).
    rewrite Hget. exists r, c', t. split; [|split].
    + unfold update_cell, set_image_cache. cbn. rewrite Hcells. reflexivity.
    + discriminate.
    + intros e He. eauto.
  - exists None, (image_cache app), []. split; [|split].
    + unfold update_cell. cbn. rewrite Hcells. reflexivity.
    + reflexivity.
    + intros e He. inversion He.
Qed.

Lemma reload_loop_spec (w : World) (n k : nat) (app : NineGridApp) :
  (k + n <= length (cells app))%nat ->
  exists app' t,
    for_each (seq k n) reload_cell w app = (Return tt, app', t) /\
    options app' = options app /\
    option_names app' = option_names app /\
    name_to_option app' = name_to_option app /\
    status_var app' = status_var app /\
    length (cells app') = length (cells app) /\
    (forall i, (i < k)%nat \/ (k + n <= i)%nat -> cells app' !! i = cells app !! i) /\
    (forall i cell, (k <= i < k + n)%nat -> cells app !! i = Some cell ->
       exists tk,
         cells app' !! i = Some (reloaded (option_names app) tk cell) /\
         (name_to_option app !! name_var (offer_names (option_names app) cell) = None ->
          tk = None)) /\
    (forall e, e ∈ t -> exists p, e = EvDecode p).
Proof.
  revert k app. induction n as [|n IH]; intros k app Hlen.
  - exists app, []. cbn. repeat split; auto; try lia.
    intros e He. inversion He.
  - destruct (lookup_lt_is_Some_2 (cells app) k ltac:(lia)) as [cell Hcell].
    destruct (reload_cell_spec k w app cell Hcell) as (tk & c' & t1 & Hrun & Htk & Ht1).
    cbn [seq for_each]. unfold mbind, M_bind. rewrite Hrun.
    match type of Hrun with _ = (_, ?a, _) => set (app1 := a) in * end.
    assert (Hlen1 : length (cells app1) = length (cells app))
      by (cbn; apply length_insert).
    destruct (IH (S k) app1 ltac:(lia))
      as (app' & t2 & Hloop & Ho & Hn & Hi & Hs & Hl & Hout & Hin & Ht2).
    rewrite Hloop. exists app', (t1 ++ t2).
    split; [reflexivity|].
    split; [rewrite Ho; reflexivity|].
    split; [rewrite Hn; reflexivity|].
    split; [rewrite Hi; reflexivity|].
    split; [rewrite Hs; reflexivity|].
    split; [lia|].
    split; [|split].
    + intros i Hi'. rewrite Hout by lia. cbn.
      apply list_lookup_insert_ne. lia.
    + intros i cell' Hrange Hcell'.
      destruct (decide (i = k)) as [-> | Hne].
      * rewrite Hout by lia. cbn. rewrite list_lookup_insert_eq by lia.
        exists tk. split; [congruence|].
        assert (cell' = cell) by congruence. subst cell'. exact Htk.
      * destruct (Hin i cell' ltac:(lia)) as (tk' & Hc & Hnone).
        { cbn. rewrite list_lookup_insert_ne by lia. exact Hcell'. }
        exists tk'. split; [exact Hc | exact Hnone].
    + intros e He. apply elem_of_app in He as [He | He]; auto.
Qed.

Lemma load_options_file_unfold (path : string) (w : World) (app : NineGridApp) :
  load_options_file path w app =
  match json_load w path with
  | Raise e => (Return tt, app, [EvShowError "Load Options Failed" path e])
  | Return raw =>
      match parse_options w raw with
      | Raise e => (Return tt, app, [EvShowError "Invalid Options Format" path e])
      | Return opts =>
          match for_each (seq 0 (length (cells app))) reload_cell w
                  (set_options opts app) with
          | (Return _, app', t) =>
              (Return tt, set_status ("已載入選項：" +:+ basename w path) app', t)
          | (Raise e, app', t) => (Raise e, app', t)
          end
      end
  end.
Proof.
  unfold load_options_file.
  cbv [mbind M_bind mret M_ret ask try_except read_json emit lift_result
       modify get_state].
  destruct (json_load w path) as [raw|e]; [|reflexivity].
  destruct (parse_options w raw) as [opts|e]; [|reflexivity].
  cbn [set_options cells].
  destruct (for_each _ _ _ _) as [[[u|e] app'] t]; cbn; [|reflexivity].
  rewrite app_nil_r. destruct u. reflexivity.
Qed.

Lemma index_by_name_fold (opts : list Option) (m : gmap string Option) (n : string) :
  foldl (fun m o => <[name o := o]> m) m opts !! n =
  match last (filter (fun o => name o = n) opts) with
  | Some o => Some o
  | None => m !! n
  end.
Proof.
  revert m. induction opts as [|o opts IH]; intros m; [reflexivity|].
  cbn [foldl]. rewrite IH, filter_cons.
  destruct (decide (name o = n)) as [Heq | Hne].
  - rewrite last_cons. destruct (last (filter _ opts)); [reflexivity|].
    rewrite Heq. apply lookup_insert_eq.
  - destruct (last (filter _ opts)); [reflexivity|].
    apply lookup_insert_ne. exact Hne.
Qed.

Lemma index_by_name_last (opts : list Option) (n : string) :
  index_by_name opts !! n = last (filter (fun o => name o = n) opts).
Proof.
  unfold index_by_name. rewrite index_by_name_fold.
  destruct (last _); [reflexivity | apply lookup_empty].
Qed.

Lemma index_by_name_absent (opts : list Option) (n : string) :
  n ∉ map name opts -> index_by_name opts !! n = None.
Proof.
  intros Hn. rewrite index_by_name_last.
  replace (filter (fun o => name o = n) opts) with (@nil Option); [reflexivity|].
  symmetry. induction opts as [|o opts IH]; [reflexivity|].
  cbn [map] in Hn. apply not_elem_of_cons in Hn as [Hne Hrest].
  rewrite filter_cons. destruct (decide (name o = n)); [congruence | auto].
Qed.

(** A load that parses: the shape of the state it leaves. *)
Lemma load_success (path : string) (w : World) (app : NineGridApp)
    (raw : pyval) (opts : list Option) :
  json_load w path = Return raw -> parse_options w raw = Return opts ->
  exists app' t,
    load_options_file path w app = (Return tt, app', t) /\
    options app' = opts /\
    option_names app' = map name opts /\
    name_to_option app' = index_by_name opts /\
    length (cells app') = length (cells app) /\
    (forall i cell, cells app !! i = Some cell ->
       exists tk,
         cells app' !! i = Some (reloaded (map name opts) tk cell) /\
         (index_by_name opts !! name_var (offer_names (map name opts) cell) = None ->
          tk = None)) /\
    (forall e, e ∈ t -> exists p, e = EvDecode p).
Proof.
  intros Hj Hp. rewrite load_options_file_unfold, Hj, Hp.
  destruct (reload_loop_spec w (length (cells app)) 0 (set_options opts app))
    as (app' & t & Hloop & Ho & Hn & Hi & Hs & Hl & _ & Hin & Ht);
    [cbn; lia|].
  rewrite Hloop. eexists _, t. split; [reflexivity|].
  cbn [set_status options option_names name_to_option cells].
  repeat split; auto.
  intros i cell Hcell.
  apply (Hin i cell); [|exact Hcell].
  apply lookup_lt_Some in Hcell. cbn in *. lia.
Qed.

(** ** Loading the option file *)

(** C6.  A load that cannot read or parse the file, or that fails to
    coerce some element, returns with the whole state as it was (options,
    names, index, cells) and exactly one error dialog; a load that
    succeeds installs the complete parsed list, its names and its index
    together. *)
Theorem load_all_or_nothing (path : string) (w : World) (app : NineGridApp) :
  match json_load w path with
  | Raise e =>
      load_options_file path w app
        = (Return tt, app, [EvShowError "Load Options Failed" path e])
  | Return raw =>
      match parse_options w raw with
      | Raise e =>
          load_options_file path w app
            = (Return tt, app, [EvShowError "Invalid Options Format" path e])
      | Return opts =>
          let app' := (load_options_file path w app).1.2 in
          options app' = opts /\
          option_names app' = map name opts /\
          name_to_option app' = index_by_name opts
      end
  end.
Proof.
  destruct (json_load w path) as [raw|e] eqn:Hj.
  - destruct (parse_options w raw) as [opts|e] eqn:Hp.
    + destruct (load_success path w app raw opts Hj Hp)
        as (app' & t & -> & Ho & Hn & Hi & _).
      cbn. auto.
    + rewrite load_options_file_unfold, Hj, Hp. reflexivity.
  - rewrite load_options_file_unfold, Hj. reflexivity.
Qed.

(** The second element has no [id]: nothing of the first is installed. *)
Example load_no_id_keeps_state :
  load_options_file "options.json" (world_json json_no_id) app_selected
  = (Return tt, app_selected,
     [EvShowError "Invalid Options Format" "options.json" TypeError]).
Proof. vm_compute. reflexivity. Qed.

Lemma make_option_accepted (w : World) (item : pyval) :
  match accepted w item with
  | Some o => make_option w item = Return o
  | None => exists e, make_option w item = Raise e
  end.
Proof.
  unfold accepted, make_option.
  destruct item; cbn; eauto.
  destruct (py_int w (dict_get items "id")); cbn; eauto.
Qed.

Lemma append_options_accepted (w : World) (items : list pyval) (acc : list Option) :
  match mapM (accepted w) items with
  | Some opts => append_options w items acc = Return (acc ++ opts)
  | None => exists e, append_options w items acc = Raise e
  end.
Proof.
  revert acc. induction items as [|item items IH]; intros acc.
  - cbn. rewrite app_nil_r. reflexivity.
  - cbn [mapM append_options]. pose proof (make_option_accepted w item) as Hm.
    destruct (accepted w item) as [o|].
    + rewrite Hm. cbn. specialize (IH (acc ++ [o])).
      destruct (mapM (accepted w) items) as [opts|]; cbn.
      * rewrite IH, <- app_assoc. reflexivity.
      * exact IH.
    + destruct Hm as [e ->]. cbn. eauto.
Qed.

(** C7 (as amended).  When the file parses to a list, the load is aborted
    with the state unchanged and one "Invalid Options Format" dialog as
    soon as some element is not accepted: an element that is no object, or
    whose [id] is missing or does not coerce to an integer.  When every
    element is accepted the load succeeds with exactly the accepted
    options and no dialog; a missing [name] or [image] does not refuse an
    element, it is read as the string "None". *)
Theorem coercion_errors_abort (path : string) (w : World) (app : NineGridApp)
    (items : list pyval) :
  json_load w path = Return (PyList items) ->
  (forall item, item ∈ items -> accepted w item = None ->
     exists e, load_options_file path w app
                 = (Return tt, app, [EvShowError "Invalid Options Format" path e])) /\
  (forall opts, mapM (accepted w) items = Some opts ->
     exists app' t, load_options_file path w app = (Return tt, app', t) /\
                    options app' = opts /\
                    forall e, e ∈ t -> exists p, e = EvDecode p) /\
  (forall d i, py_int w (dict_get d "id") = Return i ->
     dict_get d "name" = PyNone -> dict_get d "image" = PyNone ->
     accepted w (PyDict d) = Some {| id := i; name := "None"; image_path := "None" |}).
Proof.
  intros Hj.
  pose proof (append_options_accepted w items []) as Hparse.
  split; [|split].
  - intros item Hin Hbad.
    assert (Hnone : mapM (accepted w) items = None).
    { destruct (mapM (accepted w) items) as [opts|] eqn:Hm; [|reflexivity].
      assert (Hsome : is_Some (mapM (accepted w) items)) by (rewrite Hm; eauto).
      apply mapM_is_Some in Hsome.
      rewrite Forall_forall in Hsome. specialize (Hsome item Hin).
      cbn in Hsome. rewrite Hbad in Hsome. destruct Hsome; discriminate. }
    rewrite Hnone in Hparse. destruct Hparse as [e He].
    exists e. rewrite load_options_file_unfold, Hj.
    unfold parse_options. cbn. rewrite He. reflexivity.
  - intros opts Hm. rewrite Hm in Hparse.
    destruct (load_success path w app (PyList items) opts Hj Hparse)
      as (app' & t & Hload & Ho & _ & _ & _ & _ & Ht).
    exists app', t. auto.
  - intros d i Hi Hn Him. unfold accepted. rewrite Hi, Hn, Him. reflexivity.
Qed.

Lemma coercion_errors_abort_witness :
  exists e, load_options_file "options.json" (world_json json_no_id) app_selected
              = (Return tt, app_selected,
                 [EvShowError "Invalid Options Format" "options.json" e]).
Proof.
  destruct (coercion_errors_abort "options.json" (world_json json_no_id) app_selected
              [option_entry 1 "A" "a.png";
               PyDict [("name", PyStr "B"); ("image", PyStr "b.png")]])
    as (H & _ & _).
  - reflexivity.
  - apply (H (PyDict [("name", PyStr "B"); ("image", PyStr "b.png")])).
    + apply list_elem_of_In. simpl. auto.
    + reflexivity.
Defined.

(** C7, as stated, fails for a missing [name] or [image]: the file
    [[{"id": 1}]] loads without any dialog, and installs one option whose
    name and image path are both "None". *)
Lemma load_accepts_missing_name_and_image :
  (load_options_file "options.json" (world_json json_id_only) NineGridApp_built).1.1
    = Return tt /\
  (load_options_file "options.json" (world_json json_id_only) NineGridApp_built).2
    = [] /\
  options
    (load_options_file "options.json" (world_json json_id_only) NineGridApp_built).1.2
    = [{| id := 1; name := "None"; image_path := "None" |}].
Proof. vm_compute. auto. Qed.

(** C8.  A file with several options of one name loads without any error
    dialog, and the index that the cells look names up in maps each name
    to the last loaded option of that name. *)
Theorem duplicate_names_last_wins (path : string) (w : World) (app : NineGridApp)
    (raw : pyval) (opts : list Option) :
  json_load w path = Return raw ->
  parse_options w raw = Return opts ->
  exists app' t,
    load_options_file path w app = (Return tt, app', t) /\
    options app' = opts /\
    (forall e, e ∈ t -> exists p, e = EvDecode p) /\
    forall n, name_to_option app' !! n = last (filter (fun o => name o = n) opts).
Proof.
  intros Hj Hp.
  destruct (load_success path w app raw opts Hj Hp)
    as (app' & t & Hload & Ho & _ & Hi & _ & _ & Ht).
  exists app', t. repeat split; auto.
  intros n. rewrite Hi. apply index_by_name_last.
Qed.

Lemma duplicate_names_last_wins_witness :
  exists app' t,
    load_options_file "options.json" (world_json json_duplicate) NineGridApp_built
      = (Return tt, app', t) /\
    options app' = [{| id := 1; name := "A"; image_path := "a.png" |};
                    {| id := 2; name := "B"; image_path := "b.png" |};
                    {| id := 3; name := "A"; image_path := "c.png" |}] /\
    (forall e, e ∈ t -> exists p, e = EvDecode p) /\
    forall n, name_to_option app' !! n
              = last (filter (fun o => name o = n)
                        [{| id := 1; name := "A"; image_path := "a.png" |};
                         {| id := 2; name := "B"; image_path := "b.png" |};
                         {| id := 3; name := "A"; image_path := "c.png" |}]).
Proof.
  apply (duplicate_names_last_wins "options.json" (world_json json_duplicate)
           NineGridApp_built json_duplicate).
  - reflexivity.
  - vm_compute. reflexivity.
Defined.

(** The name "A" resolves to the option with id 3. *)
Example duplicate_name_lookup :
  name_to_option
    (load_options_file "options.json" (world_json json_duplicate) NineGridApp_built).1.2
    !! "A"
  = Some {| id := 3; name := "A"; image_path := "c.png" |}.
Proof. vm_compute. reflexivity. Qed.

(** ** Cells after a reload *)

(** C9 (as amended).  After a successful load, a cell whose selection is
    not among the new names has its selection cleared and is offered the
    new names, and its image is refreshed in the same pass: when no option
    has the empty name, the label shows nothing and holds no image. *)
Theorem reload_clears_stale_cell (path : string) (w : World) (app : NineGridApp)
    (raw : pyval) (opts : list Option) (i : nat) (cell : Cell) :
  json_load w path = Return raw ->
  parse_options w raw = Return opts ->
  cells app !! i = Some cell ->
  name_var cell ∉ map name opts ->
  "" ∉ map name opts ->
  exists app' t,
    load_options_file path w app = (Return tt, app', t) /\
    cells app' !! i =
      Some {| name_var := ""; combo_values := map name opts;
              img_label_shown := None; img_label_image := None |}.
Proof.
  intros Hj Hp Hcell Hstale Hempty.
  destruct (load_success path w app raw opts Hj Hp)
    as (app' & t & Hload & _ & _ & _ & _ & Hcells & _).
  exists app', t. split; [exact Hload|].
  destruct (Hcells i cell Hcell) as (tk & Hc & Htk).
  assert (Hname : name_var (offer_names (map name opts) cell) = "").
  { cbn. destruct (decide (name_var cell ∈ map name opts)); [contradiction | reflexivity]. }
  rewrite Hname in Htk. rewrite (Htk (index_by_name_absent _ _ Hempty)) in Hc.
  rewrite Hc. unfold reloaded, set_label_image. cbn [name_var combo_values].
  rewrite Hname. reflexivity.
Qed.

Lemma reload_clears_stale_cell_witness :
  exists app' t,
    load_options_file "options.json" (world_json json_duplicate) app_selected
      = (Return tt, app', t) /\
    cells app' !! 0%nat =
      Some {| name_var := ""; combo_values := ["A"; "B"; "A"];
              img_label_shown := None; img_label_image := None |}.
Proof.
  apply (reload_clears_stale_cell "options.json" (world_json json_duplicate)
           app_selected json_duplicate
           [{| id := 1; name := "A"; image_path := "a.png" |};
            {| id := 2; name := "B"; image_path := "b.png" |};
            {| id := 3; name := "A"; image_path := "c.png" |}]
           0 {| name_var := "Z"; combo_values := ["Z"];
                img_label_shown := Some thumb_wide;
                img_label_image := Some thumb_wide |}).
  - reflexivity.
  - vm_compute. reflexivity.
  - reflexivity.
  - intros H. apply list_elem_of_In in H. simpl in H. intuition discriminate.
  - intros H. apply list_elem_of_In in H. simpl in H. intuition discriminate.
Defined.

(** C9, as stated, fails: the first cell shows the thumbnail of option
    "Z"; after a load in which "Z" is no longer a name, the same pass that
    clears the selection has also cleared the image. *)
Lemma reload_does_not_keep_image :
  img_label_shown <$> cells app_selected !! 0%nat = Some (Some thumb_wide) /\
  name_var <$> cells app_selected !! 0%nat = Some "Z" /\
  (load_options_file "options.json" (world_json json_duplicate) app_selected).1.1
    = Return tt /\
  cells (load_options_file "options.json" (world_json json_duplicate) app_selected).1.2
    !! 0%nat
    = Some {| name_var := ""; combo_values := ["A"; "B"; "A"];
              img_label_shown := None; img_label_image := None |}.
Proof. vm_compute. auto. Qed.

(** * Further properties of the code *)

(** ** [ImageCache]: decoding, raising, keys *)

(** What the trace of one request says about the cache it leaves. *)
Lemma get_trace_stores (path : string) (size : option (Z * Z)) (w : World)
    (c : ImageCache) :
  (get path size w c).2 = [] \/
  ((get path size w c).2 = [EvDecode path] /\
   orig_cache c !! path = None /\
   forall img, image_open w path = Return img ->
               is_Some (orig_cache (get path size w c).1.2 !! path)).
Proof.
  rewrite get_unfold, _load_orig_unfold.
  destruct (decide (path = "")); [left; reflexivity|].
  destruct (negb (path_exists w path)); [left; reflexivity|].
  destruct (orig_cache c !! path) as [img|] eqn:Ho.
  - left. destruct (thumb_cache c !! _); [reflexivity|].
    destruct (render img size); reflexivity.
  - right. destruct (image_open w path) as [img|e].
    + cbn [store_orig thumb_cache].
      destruct (thumb_cache c !! _);
        [|destruct (render img size)]; cbn;
        (split; [reflexivity|]; split; [reflexivity|]; intros; rewrite lookup_insert_eq; eauto).
    + cbn. split; [reflexivity|]. split; [reflexivity|]. intros img H. discriminate.
Qed.

(** X1.  One call of [get] decodes at most once, and only its own path:
    it decodes exactly when the path is not empty, exists, and has no
    decoded original in the cache; otherwise it touches no file. *)
Theorem get_decodes_when_uncached (path : string) (size : option (Z * Z))
    (w : World) (c : ImageCache) :
  (get path size w c).2 =
  if decide (path <> "" /\ path_exists w path = true /\ orig_cache c !! path = None)
  then [EvDecode path] else [].
Proof.
  rewrite get_unfold, _load_orig_unfold.
  destruct (decide (path = "")) as [He | Hne].
  { destruct (decide _) as [[H _] | _]; [contradiction | reflexivity]. }
  destruct (path_exists w path) eqn:Hex; simpl.
  - destruct (orig_cache c !! path) as [img|] eqn:Ho.
    + destruct (decide _) as [(_ & _ & H) | _]; [discriminate|].
      destruct (thumb_cache c !! _); [reflexivity|].
      destruct (render img size); reflexivity.
    + destruct (decide _) as [_ | H]; [|exfalso; apply H; auto].
      destruct (image_open w path) as [img|e]; [|reflexivity].
      cbn [store_orig thumb_cache].
      destruct (thumb_cache c !! _); [reflexivity|].
      destruct (render img size); reflexivity.
  - destruct (decide _) as [(_ & H & _) | _]; [discriminate | reflexivity].
Qed.





(** X4.  A request without a size returns the decoded original itself,
    at its own size, unscaled. *)
Theorem get_without_size_is_original (ks : list Call) (w : World) (path : string)
    (b : PhotoImage) (c1 : ImageCache) (t : list Event) :
  get path None w (run_calls ImageCache_init ks) = (Return (Some b), c1, t) ->
  orig_cache c1 !! path = Some (photo_image b).
Proof.
  intros Hget.
  destruct (get_returned_rendered _ _ _ _ _ _ _ Hget) as (img & Ho & Hr).
  simpl in Hr. injection Hr as ->. exact Ho.
Qed.

Lemma get_without_size_is_original_witness :
  orig_cache (get "a.png" None world_wide ImageCache_init).1.2 !! "a.png"
  = Some (photo_image {| photo_image := img_wide |}).
Proof.
  apply (get_without_size_is_original [] world_wide "a.png"
           {| photo_image := img_wide |} _ [EvDecode "a.png"]).
  vm_compute. reflexivity.
Defined.

(** X5.  The decoded original serves every size.  Once [get] has
    returned a bitmap for a path, a later request for that path at any
    size, while the path exists, decodes nothing, does not return absent,
    and renders its bitmap from the original decoded the first time,
    whatever the file holds by then. *)
Theorem get_other_size_reuses_original (ks0 ks : list Call) (w w' : World)
    (path : string) (s1 s2 : option (Z * Z)) (b : PhotoImage) (c1 : ImageCache)
    (t1 : list Event) :
  get path s1 w (run_calls ImageCache_init ks0) = (Return (Some b), c1, t1) ->
  path_exists w' path = true ->
  exists img r c2,
    orig_cache c1 !! path = Some img /\
    get path s2 w' (run_calls c1 ks) = (r, c2, []) /\
    r <> Return None /\
    forall b2, r = Return (Some b2) -> render img s2 = Return (photo_image b2).
Proof.
  intros Hget Hex.
  destruct (get_returned_stored _ _ _ _ _ _ _ Hget) as (Hne & _ & _ & [img Ho]).
  destruct (run_calls_keeps ks c1) as [Ko _].
  pose proof (Ko _ _ Ho) as Ho'.
  assert (Hc1 : c1 = run_calls ImageCache_init
                       (ks0 ++ [{| call_world := w; call_path := path; call_op := OpGet s1 |}])).
  { rewrite run_calls_snoc. unfold run_call. cbn. rewrite Hget. reflexivity. }
  assert (Hreach : run_calls c1 ks = run_calls ImageCache_init
            ((ks0 ++ [{| call_world := w; call_path := path; call_op := OpGet s1 |}]) ++ ks)).
  { rewrite Hc1. unfold run_calls. rewrite (foldl_app _ (ks0 ++ _)). reflexivity. }
  destruct (get path s2 w' (run_calls c1 ks)) as [[r c2] t2] eqn:Hget2.
  assert (Ht2 : t2 = []).
  { pose proof (get_trace_stores path s2 w' (run_calls c1 ks)) as Hd.
    rewrite Hget2 in Hd. simpl in Hd.
    destruct Hd as [Hd | (_ & Hn & _)]; [exact Hd | congruence]. }
  subst t2. exists img, r, c2. split; [exact Ho|]. split; [reflexivity|]. split.
  - intros ->. revert Hget2.
    rewrite get_unfold, _load_orig_unfold, Hex, Ho'.
    destruct (decide (path = "")); [contradiction|]. simpl.
    destruct (thumb_cache _ !! _); [discriminate|].
    destruct (render img s2); discriminate.
  - intros b2 ->. rewrite Hreach in Hget2.
    destruct (get_returned_rendered _ _ _ _ _ _ _ Hget2) as (img2 & Ho2 & Hr2).
    rewrite <- Hreach in Hget2.
    assert (orig_cache c2 !! path = Some img).
    { pose proof (run_call_keeps
        {| call_world := w'; call_path := path; call_op := OpGet s2 |}
        (run_calls c1 ks)) as [K _].
      unfold run_call in K. cbn in K. rewrite Hget2 in K. apply K. exact Ho'. }
    congruence.
Qed.

Lemma get_other_size_reuses_original_witness :
  exists img r c2,
    orig_cache cache_wide !! "a.png" = Some img /\
    get "a.png" (Some (50, 50)) world_changed (run_calls cache_wide []) = (r, c2, []) /\
    r <> Return None /\
    forall b2, r = Return (Some b2) -> render img (Some (50, 50)) = Return (photo_image b2).
Proof.
  apply (get_other_size_reuses_original [] [] world_wide world_changed "a.png"
           cell_box (Some (50, 50)) thumb_wide cache_wide [EvDecode "a.png"]).
  - vm_compute. reflexivity.
  - vm_compute. reflexivity.
Defined.

(** In [world_changed] the file now holds a 64 x 64 image; the 50 x 50
    thumbnail is still made from the 1000 x 500 original. *)
Example get_other_size_after_change :
  (get "a.png" (Some (50, 50)) world_changed cache_wide).1.1
  = Return (Some {| photo_image :=
      {| width := 50; height := 25;
         pixels := Resampled (Decoded 1) (0, 0, 1000, 500) 50 25 |} |}).
Proof. vm_compute. reflexivity. Qed.

(** X6.  Nothing is ever evicted or replaced: an entry of either map is
    still there, with the same value, after any further calls. *)
Theorem cache_never_evicts (ks : list Call) (c : ImageCache) :
  orig_cache c ⊆ orig_cache (run_calls c ks) /\
  thumb_cache c ⊆ thumb_cache (run_calls c ks).
Proof.
  destruct (run_calls_keeps ks c) as [Ko Kt].
  split; apply map_subseteq_spec; auto.
Qed.

(** X7.  A call of [get] changes at most the original of its own path and
    the thumbnail of its own path and size: the original of any other
    path, and the thumbnail of any other path or size, are as before. *)
Theorem get_touches_own_entries (path p' : string) (size s' : option (Z * Z))
    (w : World) (c : ImageCache) :
  let c1 := (get path size w c).1.2 in
  (p' <> path -> orig_cache c1 !! p' = orig_cache c !! p') /\
  ((p', s') <> (path, size) ->
   thumb_cache c1 !! cache_key p' s' = thumb_cache c !! cache_key p' s').
Proof.
  destruct (get_step path size w c) as [Ho Ht]. cbv zeta in *. split.
  - intros Hne. destruct Ho as [-> | (_ & _ & _ & img & _ & ->)]; [reflexivity|].
    apply lookup_insert_ne. congruence.
  - intros Hne. destruct Ht as [-> | (_ & img & out & _ & _ & ->)]; [reflexivity|].
    apply lookup_insert_ne. intros Hk. apply cache_key_inj in Hk as [-> ->].
    contradiction.
Qed.

Lemma get_touches_own_entries_witness :
  orig_cache (get "a.png" None world_wide cache_wide).1.2 !! "b.png"
    = orig_cache cache_wide !! "b.png" /\
  thumb_cache (get "a.png" None world_wide cache_wide).1.2 !! cache_key "a.png" cell_box
    = thumb_cache cache_wide !! cache_key "a.png" cell_box.
Proof.
  split.
  - apply (proj1 (get_touches_own_entries "a.png" "b.png" None None
                    world_wide cache_wide)).
    discriminate.
  - apply (proj2 (get_touches_own_entries "a.png" "a.png" None cell_box
                    world_wide cache_wide)).
    discriminate.
Defined.

(** X8.  The key of a request determines the request: two requests share
    a key only when they have the same path and the same size, also for
    paths that contain the separator ["|"] or end in ["|orig"]. *)
Theorem cache_key_determines_request (p1 p2 : string) (s1 s2 : option (Z * Z)) :
  cache_key p1 s1 = cache_key p2 s2 <-> p1 = p2 /\ s1 = s2.
Proof.
  split; [apply cache_key_inj | intros [-> ->]; reflexivity].
Qed.

(** ** The reload loop, cell by cell *)

Lemma reload_cell_exact (i : nat) (w : World) (app : NineGridApp) (cell : Cell) :
  cells app !! i = Some cell ->
  exists cell' c' t,
    refresh_one w (name_to_option app) (image_cache app)
      (offer_names (option_names app) cell) = (cell', c', t) /\
    reload_cell i w app = (Return tt, with_cells c' (<[i := cell']> (cells app)) app, t).
Proof.
  intros Hcell.
  rewrite reload_cell_unfold, _refresh_cell_image_unfold.
  cbn [update_cell cells name_to_option image_cache].
  rewrite list_lookup_alter_eq, Hcell. cbn [fmap option_fmap option_map].
  set (cell1 := offer_names (option_names app) cell).
  assert (Hcells : forall tk,
    alter (set_label_image tk) i (alter (offer_names (option_names app)) i (cells app))
    = <[i := set_label_image tk cell1]> (cells app)).
  { intros tk. rewrite list_alter_alter_eq.
    exact (alter_at (set_label_image tk ∘ offer_names (option_names app)) i _ cell Hcell). }
  unfold refresh_one.
  destruct (name_to_option app !! name_var cell1) as [o|] eqn:Hopt.
  - destruct (get_cell_box_returns (image_path o) w (image_cache app))
      as (r & c' & t & Hget & _).
    rewrite Hget. eexists _, _, _. split; [reflexivity|].
    unfold update_cell, set_image_cache, with_cells. cbn. rewrite Hcells. reflexivity.
  - eexists _, _, _. split; [reflexivity|].
    unfold update_cell, with_cells. cbn. rewrite Hcells. reflexivity.
Qed.

Lemma reload_loop_exact (w : World) (rest pre : list Cell) (app : NineGridApp) :
  cells app = pre ++ rest ->
  exists rest' c' t,
    reload_cells w (option_names app) (name_to_option app) (image_cache app) rest
      = (rest', c', t) /\
    for_each (seq (length pre) (length rest)) reload_cell w app
      = (Return tt, with_cells c' (pre ++ rest') app, t).
Proof.
  revert pre app. induction rest as [|cell rest IH]; intros pre app Hcells.
  - exists [], (image_cache app), []. split; [reflexivity|].
    cbn. unfold with_cells. rewrite <- Hcells. destruct app; reflexivity.
  - assert (Hcell : cells app !! length pre = Some cell).
    { rewrite Hcells. apply list_lookup_middle. reflexivity. }
    destruct (reload_cell_exact (length pre) w app cell Hcell)
      as (cell' & c1 & t1 & Hone & Hrun).
    cbn [length seq for_each reload_cells]. unfold mbind, M_bind.
    rewrite Hrun, Hone.
    set (app1 := with_cells c1 (<[length pre := cell']> (cells app)) app).
    assert (Hcells1 : cells app1 = (pre ++ [cell']) ++ rest).
    { cbn. rewrite Hcells, <- app_assoc.
      rewrite insert_app_r_alt, Nat.sub_diag by lia. reflexivity. }
    destruct (IH (pre ++ [cell']) app1 Hcells1) as (rest' & c2 & t2 & Hrest & Hloop).
    cbn [with_cells option_names name_to_option image_cache app1] in Hrest.
    rewrite Hrest.
    replace (S (length pre)) with (length (pre ++ [cell']))
      by (rewrite length_app; cbn; lia).
    rewrite Hloop. exists (cell' :: rest'), c2, (t1 ++ t2).
    split; [reflexivity|]. unfold with_cells, app1. cbn.
    rewrite <- app_assoc. reflexivity.
Qed.

(** A load that parses is the cell-by-cell reload of the whole list. *)
Lemma load_options_file_exact (path : string) (w : World) (app : NineGridApp)
    (raw : pyval) (opts : list Option) :
  json_load w path = Return raw ->
  parse_options w raw = Return opts ->
  exists cs c t,
    reload_cells w (map name opts) (index_by_name opts) (image_cache app) (cells app)
      = (cs, c, t) /\
    load_options_file path w app
      = (Return tt,
         {| image_cache := c; options := opts; option_names := map name opts;
            name_to_option := index_by_name opts; cells := cs;
            status_var := "已載入選項：" +:+ basename w path |},
         t).
Proof.
  intros Hj Hp. rewrite load_options_file_unfold, Hj, Hp.
  destruct (reload_loop_exact w (cells app) [] (set_options opts app) eq_refl)
    as (cs & c & t & Hcs & Hloop).
  cbn [length] in Hloop. cbn [set_options cells] in Hloop. rewrite Hloop.
  exists cs, c, t. split; [exact Hcs | reflexivity].
Qed.


Lemma bitmap_cached_keeps (ks : list Call) (c : ImageCache) (o : option PhotoImage) :
  bitmap_cached c o -> bitmap_cached (run_calls c ks) o.
Proof.
  intros H b Hb. destruct (H b Hb) as [p Hp]. exists p.
  apply (proj2 (run_calls_keeps ks c)). exact Hp.
Qed.

Lemma bitmap_cached_None (c : ImageCache) : bitmap_cached c None.
Proof. intros b Hb. discriminate. Qed.

(** What a request in the cell box leaves: the cache of one more call,
    which holds the bitmap it returned. *)
Lemma get_cell_box_spec (path : string) (w : World) (c : ImageCache) :
  exists tk t,
    get path (Some (CELL_WIDTH, CELL_HEIGHT)) w c
      = (Return tk,
         run_calls c [{| call_world := w; call_path := path;
                         call_op := OpGet (Some (CELL_WIDTH, CELL_HEIGHT)) |}], t) /\
    bitmap_cached
      (run_calls c [{| call_world := w; call_path := path;
                       call_op := OpGet (Some (CELL_WIDTH, CELL_HEIGHT)) |}]) tk.
Proof.
  destruct (get_cell_box_returns path w c) as (tk & c' & t & Hget & _).
  assert (Hc : run_calls c [{| call_world := w; call_path := path;
                               call_op := OpGet (Some (CELL_WIDTH, CELL_HEIGHT)) |}] = c').
  { cbn. unfold run_call. cbn. rewrite Hget. reflexivity. }
  rewrite Hc. exists tk, t. split; [exact Hget|].
  intros b ->. exists path.
  apply (get_returned_stored _ _ _ _ _ _ _ Hget).
Qed.

Lemma refresh_one_spec (w : World) (index : gmap string Option) (c : ImageCache)
    (cell : Cell) :
  exists tk ks t,
    refresh_one w index c cell = (set_label_image tk cell, run_calls c ks, t) /\
    bitmap_cached (run_calls c ks) tk /\
    (index !! name_var cell = None -> tk = None /\ ks = [] /\ t = []).
Proof.
  unfold refresh_one. destruct (index !! name_var cell) as [o|].
  - destruct (get_cell_box_spec (image_path o) w c) as (tk & t & Hget & Hb).
    rewrite Hget. eexists tk, _, t. split; [reflexivity|]. split; [exact Hb|].
    discriminate.
  - exists None, [], []. split; [reflexivity|].
    split; [apply bitmap_cached_None | auto].
Qed.

Lemma run_calls_app (c : ImageCache) (ks1 ks2 : list Call) :
  run_calls (run_calls c ks1) ks2 = run_calls c (ks1 ++ ks2).
Proof. unfold run_calls. rewrite foldl_app. reflexivity. Qed.

Lemma reload_cells_spec (w : World) (names : list string) (index : gmap string Option)
    (cs : list Cell) (c : ImageCache) :
  exists cs' ks t,
    reload_cells w names index c cs = (cs', run_calls c ks, t) /\
    Forall2 (fun cell cell' =>
               exists tk, cell' = set_label_image tk (offer_names names cell) /\
                          bitmap_cached (run_calls c ks) tk /\
                          (index !! name_var (offer_names names cell) = None -> tk = None))
            cs cs' /\
    ((forall cell, cell ∈ cs -> index !! name_var (offer_names names cell) = None) ->
     ks = [] /\ t = []).
Proof.
  revert c. induction cs as [|cell cs IH]; intros c.
  - exists [], [], []. split; [reflexivity|]. split; [constructor | auto].
  - cbn [reload_cells].
    destruct (refresh_one_spec w index c (offer_names names cell))
      as (tk & ks1 & t1 & Hone & Hb & Hnone).
    rewrite Hone.
    destruct (IH (run_calls c ks1)) as (cs' & ks2 & t2 & Hrest & Hall & Hnone2).
    rewrite Hrest, run_calls_app.
    eexists _, (ks1 ++ ks2), _. split; [reflexivity|]. split.
    + constructor.
      * exists tk. split; [reflexivity|]. split.
        { rewrite <- run_calls_app. apply bitmap_cached_keeps, Hb. }
        { intros H. apply Hnone, H. }
      * rewrite <- run_calls_app. exact Hall.
    + intros Hall0.
      destruct (Hnone (Hall0 cell ltac:(left))) as (_ & -> & ->).
      destruct Hnone2 as [-> ->]; [|auto].
      intros cell0 Hin. apply Hall0. right. exact Hin.
Qed.

(** ** The handlers, case by case *)

Lemma _on_cell_change_exact (i : nat) (w : World) (app : NineGridApp) (cell : Cell) :
  cells app !! i = Some cell ->
  exists cell' ks t,
    _on_cell_change i w app
      = (Return tt,
         with_cells (run_calls (image_cache app) ks) (<[i := cell']> (cells app)) app, t) /\
    match name_to_option app !! name_var cell with
    | None => cell' = set_label_image None cell /\ ks = [] /\ t = []
    | Some o =>
        exists tk,
          get (image_path o) (Some (CELL_WIDTH, CELL_HEIGHT)) w (image_cache app)
            = (Return tk, run_calls (image_cache app) ks, t) /\
          cell' = configure_image tk cell /\
          bitmap_cached (run_calls (image_cache app) ks) tk
    end.
Proof.
  intros Hcell. unfold _on_cell_change, mbind, M_bind, get_state.
  rewrite Hcell.
  destruct (name_to_option app !! name_var cell) as [o|].
  - destruct (get_cell_box_spec (image_path o) w (image_cache app))
      as (tk & t & Hget & Hb).
    unfold zoom, modify. rewrite Hget.
    exists (configure_image tk cell),
           [{| call_world := w; call_path := image_path o;
               call_op := OpGet (Some (CELL_WIDTH, CELL_HEIGHT)) |}], t.
    split.
    + rewrite app_nil_r. unfold update_cell, set_image_cache, with_cells.
      cbn [cells image_cache options option_names name_to_option status_var].
      rewrite (alter_at _ _ _ _ Hcell). reflexivity.
    + exists tk. split; [reflexivity|]. split; [reflexivity | exact Hb].
  - exists (set_label_image None cell), [], []. split; [|auto].
    unfold modify, update_cell, with_cells. cbn.
    rewrite (alter_at _ _ _ _ Hcell). reflexivity.
Qed.

Lemma clear_cell_at_unfold (i : nat) (w : World) (app : NineGridApp) :
  clear_cell_at i w app =
  match cells app !! i with
  | None => (Raise (OtherError "IndexError"), app, [])
  | Some _ => (Return tt, update_cell i clear_cell app, [])
  end.
Proof.
  unfold clear_cell_at, mbind, M_bind, get_state.
  destruct (cells app !! i); reflexivity.
Qed.

Lemma clear_loop_exact (w : World) (n : nat) (rest pre : list Cell) (app : NineGridApp) :
  cells app = pre ++ rest ->
  for_each (seq (length pre) n) clear_cell_at w app =
  if decide (n <= length rest)%nat
  then (Return tt,
        with_cells (image_cache app)
          (pre ++ (clear_cell <$> take n rest) ++ drop n rest) app, [])
  else (Raise (OtherError "IndexError"),
        with_cells (image_cache app) (pre ++ (clear_cell <$> rest)) app, []).
Proof.
  revert rest pre app. induction n as [|n IH]; intros rest pre app Hcells.
  - destruct (decide _) as [_|]; [|lia].
    rewrite take_0, drop_0. simpl.
    unfold with_cells. rewrite <- Hcells. destruct app; reflexivity.
  - cbn [seq for_each]. unfold mbind, M_bind. rewrite clear_cell_at_unfold.
    destruct rest as [|cell rest].
    + rewrite app_nil_r in Hcells.
      rewrite (lookup_ge_None_2 (cells app) (length pre)) by (rewrite Hcells; lia).
      cbn. unfold with_cells. rewrite app_nil_r, <- Hcells. destruct app; reflexivity.
    + assert (Hcell : cells app !! length pre = Some cell).
      { rewrite Hcells. apply list_lookup_middle. reflexivity. }
      rewrite Hcell.
      set (app1 := update_cell (length pre) clear_cell app).
      assert (Hcells1 : cells app1 = (pre ++ [clear_cell cell]) ++ rest).
      { cbn. rewrite (alter_at _ _ _ _ Hcell), Hcells, <- app_assoc.
        rewrite insert_app_r_alt, Nat.sub_diag by lia. reflexivity. }
      specialize (IH rest (pre ++ [clear_cell cell]) app1 Hcells1).
      replace (length (pre ++ [clear_cell cell])) with (S (length pre)) in IH
        by (rewrite length_app; cbn; lia).
      rewrite IH. cbn [length].
      destruct (decide (n <= length rest)%nat), (decide (S n <= S (length rest))%nat);
        try lia; cbn; unfold with_cells, app1; cbn; rewrite <- app_assoc; reflexivity.
Qed.

Lemma on_clear_all_unfold (w : World) (app : NineGridApp) :
  on_clear_all w app =
  if decide (9 <= length (cells app))%nat
  then (Return tt,
        set_status "已清空所有欄位。"
          (with_cells (image_cache app)
             ((clear_cell <$> take 9 (cells app)) ++ drop 9 (cells app)) app), [])
  else (Raise (OtherError "IndexError"),
        with_cells (image_cache app) (clear_cell <$> cells app) app, []).
Proof.
  unfold on_clear_all, mbind, M_bind.
  pose proof (clear_loop_exact w 9 (cells app) [] app eq_refl) as Hloop.
  change (length (@nil Cell)) with 0%nat in Hloop. rewrite Hloop.
  destruct (decide _); reflexivity.
Qed.

(** ** The state of the window between events *)

Lemma cell_ok_keeps (names : list string) (c : ImageCache) (ks : list Call) (cell : Cell) :
  cell_ok names c cell -> cell_ok names (run_calls c ks) cell.
Proof.
  intros (H1 & H2 & H3 & H4).
  repeat split; auto using bitmap_cached_keeps.
Qed.

Lemma app_ok_built : app_ok NineGridApp_built.
Proof.
  unfold app_ok. cbn. repeat split.
  - repeat constructor; try (intros b Hb; discriminate); cbn; auto.
  - exists []. reflexivity.
Qed.

Lemma app_ok_load (path : string) (w : World) (app : NineGridApp) :
  app_ok app ->
  (load_options_file path w app).1.1 = Return tt /\
  app_ok (load_options_file path w app).1.2.
Proof.
  intros Hok.
  destruct (json_load w path) as [raw|e] eqn:Hj;
    [destruct (parse_options w raw) as [opts|e] eqn:Hp|].
  - destruct (load_options_file_exact path w app raw opts Hj Hp)
      as (cs & c & t & Hcs & ->).
    split; [reflexivity|]. cbn [fst snd].
    destruct (reload_cells_spec w (map name opts) (index_by_name opts)
                (cells app) (image_cache app)) as (cs' & ks & t' & Hcs' & Hall & _).
    rewrite Hcs in Hcs'. injection Hcs' as -> -> ->.
    destruct Hok as (_ & _ & Hlen & _ & [ks0 Hks0]).
    unfold app_ok. cbn [options option_names name_to_option cells image_cache].
    split; [reflexivity|]. split; [reflexivity|].
    split; [rewrite <- (Forall2_length _ _ _ Hall); exact Hlen|].
    split.
    + apply Forall_forall. intros cell' Hin.
      apply list_elem_of_lookup in Hin as [i Hi].
      destruct (Forall2_lookup_r _ _ _ _ _ Hall Hi) as (cell & _ & tk & -> & Hb & _).
      unfold cell_ok. cbn. repeat split; auto.
      destruct (decide (name_var cell ∈ map name opts)); auto.
    + exists (ks0 ++ ks). rewrite Hks0. apply run_calls_app.
  - rewrite load_options_file_unfold, Hj, Hp. auto.
  - rewrite load_options_file_unfold, Hj. auto.
Qed.

Lemma app_ok_select (i : nat) (value : string) (w : World) (app : NineGridApp) :
  app_ok app ->
  (combobox_selected i value w app).1.1 = Return tt /\
  app_ok (combobox_selected i value w app).1.2.
Proof.
  intros Hok. unfold combobox_selected, mbind, M_bind, get_state.
  destruct (cells app !! i) as [cell|] eqn:Hcell; [|auto].
  destruct (decide (value ∈ combo_values cell)) as [Hin|]; [|auto].
  unfold modify.
  set (app1 := update_cell i (set_name_var value) app).
  assert (Hcell1 : cells app1 !! i = Some (set_name_var value cell)).
  { cbn. rewrite list_lookup_alter_eq, Hcell. reflexivity. }
  destruct (_on_cell_change_exact i w app1 _ Hcell1) as (cell' & ks & t & Hrun & Hcase).
  rewrite Hrun. split; [reflexivity|]. cbn [fst snd].
  destruct Hok as (Hn & Hidx & Hlen & Hcells & [ks0 Hks0]).
  assert (Hcellok : cell_ok (option_names app) (image_cache app) cell).
  { rewrite Forall_lookup in Hcells. eauto. }
  unfold app_ok.
  cbn [with_cells app1 update_cell options option_names name_to_option cells image_cache].
  split; [exact Hn|]. split; [exact Hidx|].
  split; [rewrite length_insert, length_alter; exact Hlen|].
  split.
  - apply Forall_insert.
    + apply Forall_forall. intros x Hx.
      apply list_elem_of_lookup in Hx as [j Hj].
      destruct (decide (i = j)) as [<- | Hne].
      * rewrite list_lookup_alter_eq, Hcell in Hj. injection Hj as <-.
        apply cell_ok_keeps. destruct Hcellok as (H1 & H2 & H3 & H4).
        unfold cell_ok. cbn. repeat split; auto. right. rewrite <- H1. exact Hin.
      * rewrite list_lookup_alter_ne in Hj by exact Hne.
        apply cell_ok_keeps. rewrite Forall_lookup in Hcells. eauto.
    + destruct Hcellok as (H1 & H2 & H3 & H4).
      cbn [app1 update_cell name_to_option image_cache name_var set_name_var] in Hcase.
      destruct (name_to_option app !! value) as [o|].
      * destruct Hcase as (tk & _ & -> & Hb).
        unfold cell_ok. cbn. repeat split; auto.
        { right. rewrite <- H1. exact Hin. }
        { destruct tk as [b|]; [exact Hb | apply bitmap_cached_keeps, H3]. }
      * destruct Hcase as (-> & -> & _).
        unfold cell_ok. cbn. repeat split; auto using bitmap_cached_None.
        right. rewrite <- H1. exact Hin.
  - exists (ks0 ++ ks). rewrite Hks0. apply run_calls_app.
Qed.

Lemma app_ok_clear (w : World) (app : NineGridApp) :
  app_ok app ->
  (on_clear_all w app).1.1 = Return tt /\
  app_ok (on_clear_all w app).1.2.
Proof.
  intros (Hn & Hidx & Hlen & Hcells & Hks).
  rewrite on_clear_all_unfold.
  destruct (decide _) as [_|]; [|lia].
  split; [reflexivity|]. cbn [fst snd].
  rewrite take_ge, drop_ge, app_nil_r by lia.
  unfold app_ok.
  cbn [set_status with_cells options option_names name_to_option cells image_cache].
  split; [exact Hn|]. split; [exact Hidx|].
  split; [rewrite length_fmap; exact Hlen|].
  split; [|exact Hks].
  apply Forall_forall. intros x Hx.
  apply list_elem_of_fmap in Hx as (cell & -> & Hcell).
  rewrite Forall_forall in Hcells. destruct (Hcells _ Hcell) as (H1 & _).
  unfold cell_ok. cbn. repeat split; auto using bitmap_cached_None.
Qed.

Lemma app_ok_perform (a : Action) (w : World) (app : NineGridApp) :
  app_ok app ->
  (perform a w app).1.1 = Return tt /\ app_ok (perform a w app).1.2.
Proof.
  destruct a; cbn [perform];
    auto using app_ok_load, app_ok_select, app_ok_clear.
Qed.

Lemma app_ok_reachable (was : list (World * Action)) :
  app_ok (run_actions NineGridApp_built was).
Proof.
  induction was as [|[w a] was IH] using rev_ind; [apply app_ok_built|].
  unfold run_actions. rewrite foldl_app. cbn [foldl].
  apply (app_ok_perform a w), IH.
Qed.

Lemma index_by_name_sound (opts : list Option) (n : string) (o : Option) :
  index_by_name opts !! n = Some o -> name o = n /\ o ∈ opts.
Proof.
  rewrite index_by_name_last. intros H.
  apply last_Some_elem_of, list_elem_of_filter in H. exact H.
Qed.

Lemma index_by_name_complete (opts : list Option) (n : string) :
  n ∈ map name opts -> is_Some (index_by_name opts !! n).
Proof.
  intros H. rewrite index_by_name_last. apply last_is_Some.
  apply list_elem_of_In, in_map_iff in H as (o & Hn & Ho).
  intros Hnil.
  assert (Hin : o ∈ filter (fun o => name o = n) opts)
    by (apply list_elem_of_filter; split; [exact Hn | apply list_elem_of_In, Ho]).
  rewrite Hnil in Hin. inversion Hin.
Qed.

(** X9.  No handler ever raises.  Starting from the window as built and
    after any sequence of loads, selections and clear-all clicks, in any
    worlds, the next load, selection or clear-all returns normally: the
    scaling in the cell box cannot fail, and [on_clear_all] finds its nine
    cells. *)
Theorem handlers_never_raise (was : list (World * Action)) (w : World) (a : Action) :
  (perform a w (run_actions NineGridApp_built was)).1.1 = Return tt /\
  length (cells (run_actions NineGridApp_built was)) = 9%nat.
Proof.
  pose proof (app_ok_reachable was) as Hok. split.
  - apply app_ok_perform, Hok.
  - apply Hok.
Qed.

(** X10.  The selectors stay consistent with the option store.  After any
    sequence of loads, selections and clear-all clicks, every cell offers
    exactly the current option names, every offered name resolves in the
    index to a loaded option of that name, and the selection of every
    cell is empty or one of the offered names. *)
Theorem selectors_follow_options (was : list (World * Action)) (cell : Cell) :
  let app := run_actions NineGridApp_built was in
  cell ∈ cells app ->
  combo_values cell = map name (options app) /\
  (forall n, n ∈ combo_values cell ->
     exists o, name_to_option app !! n = Some o /\ name o = n /\ o ∈ options app) /\
  (name_var cell = "" \/ name_var cell ∈ combo_values cell).
Proof.
  intros app Hin.
  destruct (app_ok_reachable was) as (Hn & Hidx & _ & Hcells & _). fold app in Hn, Hidx, Hcells.
  rewrite Forall_forall in Hcells. destruct (Hcells _ Hin) as (Hv & Hsel & _).
  rewrite Hv, Hn, Hidx. split; [reflexivity|]. split.
  - intros n Hnin. destruct (index_by_name_complete _ _ Hnin) as [o Ho].
    exists o. split; [exact Ho | apply index_by_name_sound, Ho].
  - rewrite <- Hn. exact Hsel.
Qed.

Lemma selectors_follow_options_witness :
  let app := run_actions NineGridApp_built
               [(world_json json_duplicate, ActLoad "options.json");
                (world_json json_duplicate, ActSelect 0 "A")] in
  combo_values {| name_var := "A"; combo_values := ["A"; "B"; "A"];
                  img_label_shown := None; img_label_image := None |}
    = map name (options app) /\
  (forall n, n ∈ combo_values {| name_var := "A"; combo_values := ["A"; "B"; "A"];
                                 img_label_shown := None; img_label_image := None |} ->
     exists o, name_to_option app !! n = Some o /\ name o = n /\ o ∈ options app) /\
  (name_var {| name_var := "A"; combo_values := ["A"; "B"; "A"];
               img_label_shown := None; img_label_image := None |} = "" \/
   name_var {| name_var := "A"; combo_values := ["A"; "B"; "A"];
               img_label_shown := None; img_label_image := None |}
     ∈ combo_values {| name_var := "A"; combo_values := ["A"; "B"; "A"];
                       img_label_shown := None; img_label_image := None |}).
Proof.
  apply (selectors_follow_options
           [(world_json json_duplicate, ActLoad "options.json");
            (world_json json_duplicate, ActSelect 0 "A")]).
  apply list_elem_of_lookup. exists 0%nat. vm_compute. reflexivity.
Defined.



(** ** A selection change *)

(** X12.  A selection change in one cell never raises and touches nothing
    but that cell's image and the cache: the options, their names, the
    index, the status line, the number of cells, every other cell, and the
    selection and offered values of the cell itself are as before. *)
Theorem cell_change_frame (i : nat) (w : World) (app : NineGridApp) :
  let app' := (_on_cell_change i w app).1.2 in
  (_on_cell_change i w app).1.1 = Return tt /\
  options app' = options app /\
  option_names app' = option_names app /\
  name_to_option app' = name_to_option app /\
  status_var app' = status_var app /\
  length (cells app') = length (cells app) /\
  (forall j, j <> i -> cells app' !! j = cells app !! j) /\
  name_var <$> cells app' !! i = name_var <$> cells app !! i /\
  combo_values <$> cells app' !! i = combo_values <$> cells app !! i.
Proof.
  destruct (cells app !! i) as [cell|] eqn:Hcell.
  - destruct (_on_cell_change_exact i w app cell Hcell) as (cell' & ks & t & -> & Hcase).
    cbn [fst snd with_cells options option_names name_to_option status_var cells].
    repeat split; auto.
    + apply length_insert.
    + intros j Hj. apply list_lookup_insert_ne. auto.
    + rewrite list_lookup_insert_eq by (apply lookup_lt_Some in Hcell; exact Hcell).
      destruct (name_to_option app !! name_var cell);
        [destruct Hcase as (tk & _ & -> & _) | destruct Hcase as (-> & _)];
        rewrite ?Hcell; reflexivity.
    + rewrite list_lookup_insert_eq by (apply lookup_lt_Some in Hcell; exact Hcell).
      destruct (name_to_option app !! name_var cell);
        [destruct Hcase as (tk & _ & -> & _) | destruct Hcase as (-> & _)];
        rewrite ?Hcell; reflexivity.
  - unfold _on_cell_change, mbind, M_bind, get_state. rewrite Hcell.
    cbn. rewrite ?Hcell. repeat split; auto.
Qed.

(** X13.  A selection that names no option (the empty selection, when no
    option has the empty name) clears the image of the cell: the label
    shows nothing and holds no image; nothing is decoded and the cache is
    untouched. *)
Theorem cell_change_unknown_name_clears (i : nat) (w : World) (app : NineGridApp)
    (cell : Cell) :
  cells app !! i = Some cell ->
  name_to_option app !! name_var cell = None ->
  _on_cell_change i w app
  = (Return tt,
     with_cells (image_cache app)
       (<[i := {| name_var := name_var cell; combo_values := combo_values cell;
                  img_label_shown := None; img_label_image := None |}]> (cells app))
       app,
     []).
Proof.
  intros Hcell Hnone.
  destruct (_on_cell_change_exact i w app cell Hcell) as (cell' & ks & t & -> & Hcase).
  rewrite Hnone in Hcase. destruct Hcase as (-> & -> & ->). reflexivity.
Qed.

Lemma cell_change_unknown_name_clears_witness :
  _on_cell_change 0 world_wide
    (update_cell 0 (set_name_var "") app_selected)
  = (Return tt,
     with_cells (image_cache (update_cell 0 (set_name_var "") app_selected))
       (<[0%nat := {| name_var := ""; combo_values := ["Z"];
                      img_label_shown := None; img_label_image := None |}]>
          (cells (update_cell 0 (set_name_var "") app_selected)))
       (update_cell 0 (set_name_var "") app_selected),
     []).
Proof.
  apply (cell_change_unknown_name_clears 0 world_wide
           (update_cell 0 (set_name_var "") app_selected)
           {| name_var := ""; combo_values := ["Z"];
              img_label_shown := Some thumb_wide;
              img_label_image := Some thumb_wide |}).
  - reflexivity.
  - vm_compute. reflexivity.
Defined.

(** X14.  When the selected option has no image to give ([get] returns
    absent: the file is missing or does not decode), a selection change
    drops the reference in [img_label.image] but leaves on the label the
    picture it showed before, because tkinter ignores [image=None]; the
    refresh of a reload, which passes the empty string instead, clears the
    label in the same situation. *)
Theorem cell_change_missing_image_keeps_picture (i : nat) (w : World)
    (app : NineGridApp) (cell : Cell) (o : Option) :
  cells app !! i = Some cell ->
  name_to_option app !! name_var cell = Some o ->
  (get (image_path o) (Some (CELL_WIDTH, CELL_HEIGHT)) w (image_cache app)).1.1
    = Return None ->
  cells (_on_cell_change i w app).1.2 !! i
    = Some {| name_var := name_var cell; combo_values := combo_values cell;
              img_label_shown := img_label_shown cell; img_label_image := None |} /\
  cells (_refresh_cell_image i w app).1.2 !! i
    = Some {| name_var := name_var cell; combo_values := combo_values cell;
              img_label_shown := None; img_label_image := None |}.
Proof.
  intros Hcell Ho Hget.
  pose proof (lookup_lt_Some _ _ _ Hcell) as Hlt. split.
  - destruct (_on_cell_change_exact i w app cell Hcell) as (cell' & ks & t & -> & Hcase).
    rewrite Ho in Hcase. destruct Hcase as (tk & Hg & -> & _).
    rewrite Hg in Hget. injection Hget as ->.
    cbn. rewrite list_lookup_insert_eq by exact Hlt. reflexivity.
  - rewrite _refresh_cell_image_unfold, Hcell, Ho.
    destruct (get _ _ _ _) as [[r c'] t]. cbn in Hget. subst r.
    cbn. rewrite list_lookup_alter_eq, Hcell. reflexivity.
Qed.

Lemma cell_change_missing_image_keeps_picture_witness :
  cells (_on_cell_change 0 world_empty app_selected).1.2 !! 0%nat
    = Some {| name_var := "Z"; combo_values := ["Z"];
              img_label_shown := Some thumb_wide; img_label_image := None |} /\
  cells (_refresh_cell_image 0 world_empty app_selected).1.2 !! 0%nat
    = Some {| name_var := "Z"; combo_values := ["Z"];
              img_label_shown := None; img_label_image := None |}.
Proof.
  apply (cell_change_missing_image_keeps_picture 0 world_empty app_selected
           {| name_var := "Z"; combo_values := ["Z"];
              img_label_shown := Some thumb_wide;
              img_label_image := Some thumb_wide |}
           {| id := 9; name := "Z"; image_path := "a.png" |}).
  - reflexivity.
  - vm_compute. reflexivity.
  - vm_compute. reflexivity.
Defined.

(** ** Clear all *)

(** X15.  With nine cells or more, [on_clear_all] returns normally, empties
    the selection and the image of each of the first nine cells, keeps the
    values every selector offers, changes no cell past the ninth, leaves
    the options, the index and the image cache alone, decodes nothing and
    sets the status line. *)
Theorem clear_all_resets_nine_cells (w : World) (app : NineGridApp) :
  (9 <= length (cells app))%nat ->
  exists app',
    on_clear_all w app = (Return tt, app', []) /\
    (forall i cell, cells app !! i = Some cell ->
       cells app' !! i =
         Some (if decide (i < 9)%nat
               then {| name_var := ""; combo_values := combo_values cell;
                       img_label_shown := None; img_label_image := None |}
               else cell)) /\
    length (cells app') = length (cells app) /\
    options app' = options app /\
    option_names app' = option_names app /\
    name_to_option app' = name_to_option app /\
    image_cache app' = image_cache app /\
    status_var app' = "已清空所有欄位。".
Proof.
  intros Hlen. rewrite on_clear_all_unfold.
  destruct (decide _) as [_|]; [|lia].
  eexists. split; [reflexivity|].
  cbn [set_status with_cells options option_names name_to_option cells
       image_cache status_var].
  split; [|split; [|auto 10]].
  - intros i cell Hcell. destruct (decide (i < 9)%nat) as [Hi | Hi].
    + rewrite lookup_app_l by (rewrite length_fmap, length_take; lia).
      rewrite list_lookup_fmap, lookup_take_lt, Hcell by lia. reflexivity.
    + rewrite lookup_app_r by (rewrite length_fmap, length_take; lia).
      rewrite length_fmap, length_take, lookup_drop.
      replace (9 + (i - 9 `min` length (cells app)))%nat with i by lia.
      exact Hcell.
  - rewrite length_app, length_fmap, length_take, length_drop. lia.
Qed.

Lemma clear_all_resets_nine_cells_witness :
  exists app',
    on_clear_all world_empty app_selected = (Return tt, app', []) /\
    (forall i cell, cells app_selected !! i = Some cell ->
       cells app' !! i =
         Some (if decide (i < 9)%nat
               then {| name_var := ""; combo_values := combo_values cell;
                       img_label_shown := None; img_label_image := None |}
               else cell)) /\
    length (cells app') = length (cells app_selected) /\
    options app' = options app_selected /\
    option_names app' = option_names app_selected /\
    name_to_option app' = name_to_option app_selected /\
    image_cache app' = image_cache app_selected /\
    status_var app' = "已清空所有欄位。".
Proof.
  apply (clear_all_resets_nine_cells world_empty app_selected).
  simpl. lia.
Defined.

(** X16.  Clearing twice is clearing once: a second [on_clear_all] leaves
    the window exactly as the first one left it. *)
Theorem clear_all_idempotent (w w' : World) (app : NineGridApp) :
  (9 <= length (cells app))%nat ->
  on_clear_all w' (on_clear_all w app).1.2
  = (Return tt, (on_clear_all w app).1.2, []).
Proof.
  intros Hlen. rewrite (on_clear_all_unfold w app).
  destruct (decide _) as [_|]; [|lia]. cbn [fst snd].
  rewrite on_clear_all_unfold.
  cbn [set_status with_cells options option_names name_to_option cells
       image_cache status_var].
  assert (Hl : length (clear_cell <$> take 9 (cells app)) = 9%nat)
    by (rewrite length_fmap, length_take; lia).
  destruct (decide _) as [_|Hn]; [|rewrite length_app, Hl in Hn; lia].
  rewrite take_app_length', drop_app_length' by (symmetry; exact Hl).
  rewrite <- list_fmap_compose. reflexivity.
Qed.

Lemma clear_all_idempotent_witness :
  on_clear_all world_wide (on_clear_all world_empty app_selected).1.2
  = (Return tt, (on_clear_all world_empty app_selected).1.2, []).
Proof.
  apply (clear_all_idempotent world_empty world_wide app_selected).
  simpl. lia.
Defined.

(** ** More on loading *)

(** A load into an index where no cell finds its selection: nothing is
    decoded, the cache stays, every cell ends up without an image. *)
Lemma load_without_lookups (path : string) (w : World) (app : NineGridApp)
    (raw : pyval) (opts : list Option) :
  json_load w path = Return raw ->
  parse_options w raw = Return opts ->
  (forall cell, cell ∈ cells app ->
     index_by_name opts !! name_var (offer_names (map name opts) cell) = None) ->
  load_options_file path w app
  = (Return tt,
     {| image_cache := image_cache app; options := opts;
        option_names := map name opts; name_to_option := index_by_name opts;
        cells := (fun cell => set_label_image None (offer_names (map name opts) cell))
                   <$> cells app;
        status_var := "已載入選項：" +:+ basename w path |},
     []).
Proof.
  intros Hj Hp Hnone.
  destruct (load_options_file_exact path w app raw opts Hj Hp)
    as (cs & c & t & Hcs & ->).
  destruct (reload_cells_spec w (map name opts) (index_by_name opts)
              (cells app) (image_cache app)) as (cs' & ks & t' & Hcs' & Hall & Hnil).
  rewrite Hcs in Hcs'. injection Hcs' as -> -> ->.
  destruct (Hnil Hnone) as [-> ->]. cbn [run_calls foldl].
  do 3 f_equal. f_equal.
  clear Hcs Hnil. induction Hall as [|cell cell' l l' (tk & -> & _ & Htk) _ IH].
  - reflexivity.
  - cbn [fmap list_fmap]. rewrite (Htk (Hnone cell ltac:(left))).
    f_equal. apply IH. intros c0 Hc0. apply Hnone. right. exact Hc0.
Qed.

(** X17.  Clear all, then load: when no loaded option has the empty name,
    a successful load after [on_clear_all] decodes nothing, leaves the
    image cache as it was, and leaves each of the nine cells empty,
    offering the new names. *)
Theorem load_after_clear_all (path : string) (w w' : World) (app : NineGridApp)
    (raw : pyval) (opts : list Option) :
  length (cells app) = 9%nat ->
  json_load w' path = Return raw ->
  parse_options w' raw = Return opts ->
  "" ∉ map name opts ->
  load_options_file path w' (on_clear_all w app).1.2
  = (Return tt,
     {| image_cache := image_cache app; options := opts;
        option_names := map name opts; name_to_option := index_by_name opts;
        cells := replicate 9 {| name_var := ""; combo_values := map name opts;
                                img_label_shown := None; img_label_image := None |};
        status_var := "已載入選項：" +:+ basename w' path |},
     []).
Proof.
  intros Hlen Hj Hp Hempty.
  rewrite (on_clear_all_unfold w app).
  destruct (decide _) as [_|]; [|lia]. cbn [fst snd].
  rewrite take_ge, drop_ge, app_nil_r by lia.
  assert (Hoffer : forall cell,
    offer_names (map name opts) (clear_cell cell)
    = {| name_var := ""; combo_values := map name opts;
         img_label_shown := None; img_label_image := None |}).
  { intros cell. unfold offer_names. cbn.
    destruct (decide ("" ∈ map name opts)); reflexivity. }
  rewrite (load_without_lookups path w' _ raw opts Hj Hp).
  - cbn [set_status with_cells image_cache cells]. do 3 f_equal. f_equal.
    rewrite <- list_fmap_compose, <- Hlen.
    generalize (cells app). intros l. induction l as [|cell l IH]; [reflexivity|].
    cbn [fmap list_fmap length replicate]. rewrite <- IH.
    f_equal. unfold compose. rewrite Hoffer. reflexivity.
  - cbn [set_status with_cells cells]. intros cell Hin.
    apply list_elem_of_fmap in Hin as (cell0 & -> & _).
    rewrite Hoffer. cbn. apply index_by_name_absent, Hempty.
Qed.

Lemma load_after_clear_all_witness :
  load_options_file "options.json" (world_json json_duplicate)
    (on_clear_all world_empty app_selected).1.2
  = (Return tt,
     {| image_cache := image_cache app_selected;
        options := [{| id := 1; name := "A"; image_path := "a.png" |};
                    {| id := 2; name := "B"; image_path := "b.png" |};
                    {| id := 3; name := "A"; image_path := "c.png" |}];
        option_names := map name
                   [{| id := 1; name := "A"; image_path := "a.png" |};
                    {| id := 2; name := "B"; image_path := "b.png" |};
                    {| id := 3; name := "A"; image_path := "c.png" |}];
        name_to_option := index_by_name
                   [{| id := 1; name := "A"; image_path := "a.png" |};
                    {| id := 2; name := "B"; image_path := "b.png" |};
                    {| id := 3; name := "A"; image_path := "c.png" |}];
        cells := replicate 9
                   {| name_var := "";
                      combo_values := map name
                         [{| id := 1; name := "A"; image_path := "a.png" |};
                          {| id := 2; name := "B"; image_path := "b.png" |};
                          {| id := 3; name := "A"; image_path := "c.png" |}];
                      img_label_shown := None; img_label_image := None |};
        status_var := "已載入選項：" +:+ basename (world_json json_duplicate) "options.json" |},
     []).
Proof.
  apply (load_after_clear_all "options.json" world_empty (world_json json_duplicate)
           app_selected json_duplicate).
  - reflexivity.
  - reflexivity.
  - vm_compute. reflexivity.
  - intros H. apply list_elem_of_In in H. simpl in H. intuition discriminate.
Defined.

(** X18.  An empty document is an empty option list.  A file that holds
    [[]], [{}] or [""] loads without any dialog: the option list, the
    names and the index become empty, every cell loses its selection and
    its image and is offered nothing, and no file is decoded. *)
Theorem load_empty_document (path : string) (w : World) (app : NineGridApp)
    (raw : pyval) :
  json_load w path = Return raw ->
  raw = PyList [] \/ raw = PyDict [] \/ raw = PyStr "" ->
  load_options_file path w app
  = (Return tt,
     {| image_cache := image_cache app; options := [];
        option_names := []; name_to_option := ∅;
        cells := (fun _ => empty_cell) <$> cells app;
        status_var := "已載入選項：" +:+ basename w path |},
     []).
Proof.
  intros Hj Hraw.
  assert (Hp : parse_options w raw = Return [])
    by (destruct Hraw as [-> | [-> | ->]]; reflexivity).
  rewrite (load_without_lookups path w app raw [] Hj Hp).
  - reflexivity.
  - intros cell _. apply lookup_empty.
Qed.

Lemma load_empty_document_witness :
  load_options_file "options.json" (world_json (PyDict [])) app_selected
  = (Return tt,
     {| image_cache := image_cache app_selected; options := [];
        option_names := []; name_to_option := ∅;
        cells := (fun _ => empty_cell) <$> cells app_selected;
        status_var := "已載入選項：" +:+ basename (world_json (PyDict [])) "options.json" |},
     []).
Proof.
  apply (load_empty_document "options.json" (world_json (PyDict [])) app_selected
           (PyDict [])).
  - reflexivity.
  - right. left. reflexivity.
Defined.

(** X19.  A document that is not a list of objects is refused as a whole:
    [null], a boolean or a number raises [TypeError] (it does not
    iterate), a non-empty object or a non-empty string raises
    [AttributeError] (its keys and characters are strings, which have no
    [get]); in each case the state is unchanged and one "Invalid Options
    Format" dialog is shown. *)
Theorem load_refuses_other_documents (path : string) (w : World) (app : NineGridApp)
    (raw : pyval) :
  json_load w path = Return raw ->
  match raw with
  | PyNone | PyBool _ | PyInt _ | PyFloat _ =>
      load_options_file path w app
      = (Return tt, app, [EvShowError "Invalid Options Format" path TypeError])
  | PyDict (_ :: _) | PyStr (String _ _) =>
      load_options_file path w app
      = (Return tt, app, [EvShowError "Invalid Options Format" path AttributeError])
  | _ => True
  end.
Proof.
  intros Hj. rewrite load_options_file_unfold, Hj.
  destruct raw as [| | | |[|c s]|[|item items]|[|[k v] d]]; try exact I; reflexivity.
Qed.

Lemma load_refuses_other_documents_witness :
  load_options_file "options.json" (world_json (PyDict [("id", PyInt 1)])) app_selected
  = (Return tt, app_selected,
     [EvShowError "Invalid Options Format" "options.json" AttributeError]).
Proof.
  exact (load_refuses_other_documents "options.json"
           (world_json (PyDict [("id", PyInt 1)])) app_selected
           (PyDict [("id", PyInt 1)]) eq_refl).
Defined.

(** X20.  A successful load visits every cell: the cell is offered the new
    names, keeps its selection when that is still a name and loses it
    otherwise, and its label shows and holds one and the same image,
    absent or a bitmap that the thumbnail map holds; the number of cells
    is unchanged and the image cache has only grown. *)
Theorem load_refreshes_every_cell (path : string) (w : World) (app : NineGridApp)
    (raw : pyval) (opts : list Option) (i : nat) (cell : Cell) :
  json_load w path = Return raw ->
  parse_options w raw = Return opts ->
  cells app !! i = Some cell ->
  exists app' t tk,
    load_options_file path w app = (Return tt, app', t) /\
    cells app' !! i
      = Some {| name_var := if decide (name_var cell ∈ map name opts)
                            then name_var cell else "";
                combo_values := map name opts;
                img_label_shown := tk; img_label_image := tk |} /\
    bitmap_cached (image_cache app') tk /\
    length (cells app') = length (cells app) /\
    orig_cache (image_cache app) ⊆ orig_cache (image_cache app') /\
    thumb_cache (image_cache app) ⊆ thumb_cache (image_cache app').
Proof.
  intros Hj Hp Hcell.
  destruct (load_options_file_exact path w app raw opts Hj Hp)
    as (cs & c & t & Hcs & ->).
  destruct (reload_cells_spec w (map name opts) (index_by_name opts)
              (cells app) (image_cache app)) as (cs' & ks & t' & Hcs' & Hall & _).
  rewrite Hcs in Hcs'. injection Hcs' as -> -> ->.
  destruct (Forall2_lookup_l _ _ _ _ _ Hall Hcell) as (cell' & Hcell' & tk & -> & Hb & _).
  eexists _, _, tk. split; [reflexivity|].
  cbn [cells image_cache]. split; [exact Hcell'|]. split; [exact Hb|].
  split; [symmetry; apply (Forall2_length _ _ _ Hall)|].
  destruct (run_calls_keeps ks (image_cache app)) as [Ko Kt].
  split; apply map_subseteq_spec; auto.
Qed.

Lemma load_refreshes_every_cell_witness :
  exists app' t tk,
    load_options_file "options.json"
      (world_json (PyList [option_entry 5 "Z" "a.png"])) app_selected
      = (Return tt, app', t) /\
    cells app' !! 0%nat
      = Some {| name_var := if decide ("Z" ∈ map name [{| id := 5; name := "Z"; image_path := "a.png" |}])
                            then "Z" else "";
                combo_values := map name [{| id := 5; name := "Z"; image_path := "a.png" |}];
                img_label_shown := tk; img_label_image := tk |} /\
    bitmap_cached (image_cache app') tk /\
    length (cells app') = length (cells app_selected) /\
    orig_cache (image_cache app_selected) ⊆ orig_cache (image_cache app') /\
    thumb_cache (image_cache app_selected) ⊆ thumb_cache (image_cache app').
Proof.
  apply (load_refreshes_every_cell "options.json"
           (world_json (PyList [option_entry 5 "Z" "a.png"])) app_selected
           (PyList [option_entry 5 "Z" "a.png"])
           [{| id := 5; name := "Z"; image_path := "a.png" |}] 0
           {| name_var := "Z"; combo_values := ["Z"];
              img_label_shown := Some thumb_wide;
              img_label_image := Some thumb_wide |}).
  - reflexivity.
  - vm_compute. reflexivity.
  - reflexivity.
Defined.

Lemma reload_cells_decodes (w : World) (names : list string)
    (index : gmap string Option) (cs : list Cell) (c : ImageCache) (p : string) :
  (is_Some (orig_cache c !! p) -> EvDecode p ∉ (reload_cells w names index c cs).2) /\
  (forall img, image_open w p = Return img ->
     forall t1 t2, (reload_cells w names index c cs).2 = t1 ++ EvDecode p :: t2 ->
                   EvDecode p ∉ t1 ++ t2).
Proof.
  revert c. induction cs as [|cell cs IH]; intros c.
  - cbn. split; [intros _ H; inversion H|].
    intros img _ t1 t2 H. destruct t1; discriminate.
  - cbn [reload_cells].
    destruct (refresh_one w index c (offer_names names cell)) as [[cell' c1] t1] eqn:Hone.
    destruct (reload_cells w names index c1 cs) as [[rest' c2] t2] eqn:Hrest.
    cbn [snd].
    specialize (IH c1). rewrite Hrest in IH. cbn [snd] in IH.
    destruct IH as [IH1 IH2].
    assert (Hfirst : (t1 = [] /\ (forall q img, orig_cache c !! q = Some img ->
                                   orig_cache c1 !! q = Some img)) \/
                     exists p1, t1 = [EvDecode p1] /\ orig_cache c !! p1 = None /\
                       (forall q img, orig_cache c !! q = Some img ->
                                      orig_cache c1 !! q = Some img) /\
                       (forall img, image_open w p1 = Return img ->
                                    is_Some (orig_cache c1 !! p1))).
    { unfold refresh_one in Hone.
      destruct (index !! name_var (offer_names names cell)) as [o|].
      - pose proof (get_trace_stores (image_path o) (Some (CELL_WIDTH, CELL_HEIGHT)) w c) as Ht.
        pose proof (run_call_keeps
          {| call_world := w; call_path := image_path o;
             call_op := OpGet (Some (CELL_WIDTH, CELL_HEIGHT)) |} c) as [Ko _].
        unfold run_call in Ko. cbn [call_op call_path call_world] in Ko.
        destruct (get (image_path o) _ w c) as [[[tk|e] c'] t'];
          injection Hone as <- <- <-; cbn [fst snd] in *;
          (destruct Ht as [-> | (-> & Hn & Hst)];
           [left; auto | right; exists (image_path o); auto]).
      - injection Hone as <- <- <-. left. auto. }
    split.
    + intros [img Hp] Hin. apply elem_of_app in Hin as [Hin | Hin].
      * destruct Hfirst as [[-> _] | (p1 & -> & Hn & _)]; [inversion Hin|].
        apply list_elem_of_singleton in Hin. injection Hin as ->. congruence.
      * destruct Hfirst as [[_ K] | (p1 & _ & _ & K & _)];
          apply IH1; eauto.
    + intros img Hi u1 u2 Hsplit.
      destruct Hfirst as [[-> _] | (p1 & -> & Hn & K & Hst)].
      * cbn in Hsplit. eapply IH2; eauto.
      * destruct u1 as [|e u1]; cbn in Hsplit; injection Hsplit as He Ht2.
        { subst p1. cbn. rewrite <- Ht2. apply IH1, (Hst img Hi). }
        { subst e. cbn. intros Hin. apply elem_of_cons in Hin as [Heq | Hin].
          - injection Heq as ->. apply (IH1 (Hst img Hi)). rewrite Ht2.
            apply elem_of_app. right. left.
          - exact (IH2 img Hi u1 u2 Ht2 Hin). }
Qed.

(** X21.  A load decodes no file twice: a path whose decoded original is
    already cached is not decoded at all, and a path that decodes
    successfully is decoded at most once, however many cells select
    options that point to it. *)
Theorem load_decodes_each_file_once (path : string) (w : World) (app : NineGridApp)
    (p : string) :
  let t := (load_options_file path w app).2 in
  (is_Some (orig_cache (image_cache app) !! p) -> EvDecode p ∉ t) /\
  (forall img, image_open w p = Return img ->
     forall t1 t2, t = t1 ++ EvDecode p :: t2 -> EvDecode p ∉ t1 ++ t2).
Proof.
  cbv zeta.
  assert (Hshow : forall title e,
    (is_Some (orig_cache (image_cache app) !! p) ->
     EvDecode p ∉ [EvShowError title path e]) /\
    (forall img, image_open w p = Return img ->
       forall t1 t2, [EvShowError title path e] = t1 ++ EvDecode p :: t2 ->
                     EvDecode p ∉ t1 ++ t2)).
  { intros title e. split.
    - intros _ H. apply list_elem_of_singleton in H. discriminate.
    - intros img _ t1 t2 H. destruct t1 as [|x [|y t1]]; discriminate. }
  destruct (json_load w path) as [raw|e] eqn:Hj;
    [destruct (parse_options w raw) as [opts|e] eqn:Hp|].
  - destruct (load_options_file_exact path w app raw opts Hj Hp)
      as (cs & c & t & Hcs & ->). cbn [snd].
    pose proof (reload_cells_decodes w (map name opts) (index_by_name opts)
                  (cells app) (image_cache app) p) as H.
    rewrite Hcs in H. exact H.
  - rewrite load_options_file_unfold, Hj, Hp. apply Hshow.
  - rewrite load_options_file_unfold, Hj. apply Hshow.
Qed.

(** Nine cells that all select the option "A": the file is decoded once. *)
Example nine_cells_one_decode :
  (load_options_file "options.json"
     (world_json (PyList [option_entry 1 "A" "a.png"]))
     (with_cells ImageCache_init
        (replicate 9 {| name_var := "A"; combo_values := ["A"];
                        img_label_shown := None; img_label_image := None |})
        NineGridApp_built)).2
  = [EvDecode "a.png"].
Proof. vm_compute. reflexivity. Qed.

(** ** The index by name *)

(** X22.  The index holds exactly the names of the options: looking up a
    name succeeds exactly when some option has that name, and what it
    finds is an option of the list with that name. *)
Theorem index_matches_names (opts : list Option) (n : string) :
  (is_Some (index_by_name opts !! n) <-> n ∈ map name opts) /\
  (forall o, index_by_name opts !! n = Some o -> name o = n /\ o ∈ opts).
Proof.
  split; [split|].
  - intros [o Ho]. apply index_by_name_sound in Ho as [<- Hin].
    apply list_elem_of_In, in_map, list_elem_of_In, Hin.
  - apply index_by_name_complete.
  - intros o. apply index_by_name_sound.
Qed.

(** X23.  With unique names, every option is found under its own name:
    building the index and looking a name up gives back the option. *)
Theorem index_roundtrip_unique_names (opts : list Option) (o : Option) :
  NoDup (map name opts) ->
  o ∈ opts ->
  index_by_name opts !! name o = Some o.
Proof.
  intros Hnd Hin.
  destruct (index_by_name_complete opts (name o)) as [o' Ho'].
  { apply list_elem_of_In, in_map, list_elem_of_In, Hin. }
  rewrite Ho'. f_equal.
  apply index_by_name_sound in Ho' as [Hname Hin'].
  clear -Hnd Hin Hin' Hname.
  induction opts as [|x opts IH]; [inversion Hin|].
  cbn [map] in Hnd. apply NoDup_cons in Hnd as [Hx Hnd].
  assert (Hmem : forall y, y ∈ opts -> name y ∈ map name opts)
    by (intros y Hy; apply list_elem_of_In, in_map, list_elem_of_In, Hy).
  apply elem_of_cons in Hin as [-> | Hin]; apply elem_of_cons in Hin' as [-> | Hin'].
  - reflexivity.
  - exfalso. apply Hx. rewrite <- Hname. auto.
  - exfalso. apply Hx. rewrite Hname. auto.
  - auto.
Qed.

Lemma index_roundtrip_unique_names_witness :
  index_by_name [{| id := 1; name := "A"; image_path := "a.png" |};
                 {| id := 2; name := "B"; image_path := "b.png" |}]
    !! name {| id := 1; name := "A"; image_path := "a.png" |}
  = Some {| id := 1; name := "A"; image_path := "a.png" |}.
Proof.
  apply (index_roundtrip_unique_names
           [{| id := 1; name := "A"; image_path := "a.png" |};
            {| id := 2; name := "B"; image_path := "b.png" |}]).
  - simpl. apply NoDup_cons. split.
    + intros H. apply list_elem_of_In in H. simpl in H. intuition discriminate.
    + apply NoDup_cons. split; [intros H; inversion H | apply NoDup_nil; exact I].
  - apply list_elem_of_In. simpl. auto.
Defined.

(** ** [_load_orig] *)

(** X24.  [_load_orig] never raises, whatever the decoder does; when it
    returns an image, that image is the cached original of the path
    afterwards, and it is either the original that was already cached or
    what the file decoded to in this very call. *)
Theorem _load_orig_returns_cached (path : string) (w : World) (c : ImageCache) :
  exists r c1 t,
    _load_orig path w c = (Return r, c1, t) /\
    forall img, r = Some img ->
      orig_cache c1 !! path = Some img /\
      (orig_cache c !! path = Some img \/
       (orig_cache c !! path = None /\ image_open w path = Return img)).
Proof.
  rewrite _load_orig_unfold.
  destruct (decide (path = "")); [eexists _, _, _; split; [reflexivity | discriminate]|].
  destruct (negb (path_exists w path));
    [eexists _, _, _; split; [reflexivity | discriminate]|].
  destruct (orig_cache c !! path) as [img0|] eqn:Ho.
  - eexists _, _, _. split; [reflexivity|]. intros img [= <-]. auto.
  - destruct (image_open w path) as [img0|e] eqn:Hi.
    + eexists _, _, _. split; [reflexivity|]. intros img [= <-].
      cbn. rewrite lookup_insert_eq. auto.
    + eexists _, _, _. split; [reflexivity | discriminate].
Qed.

(** ** The window size *)

(** X25.  The size [_autosize_to_content] asks for never exceeds the
    content plus the margin of 20, and never exceeds the screen in either
    direction as soon as the screen is at least 640 x 480 (on a smaller
    screen the floor of 640 x 480 can exceed it).  It reaches the minimum
    size that is set right after it, the size the widgets request, in
    both directions exactly when the requested width is at most the
    larger of 640 and the screen width less 80, and the requested height
    at most the larger of 480 and the screen height less 120. *)
Theorem autosize_within_screen (q : WinInfo) :
  let '(w, h) := autosize q in
  let '(min_w, min_h) := (_autosize_to_content q).2 in
  w <= winfo_reqwidth q + 20 /\ h <= winfo_reqheight q + 20 /\
  (640 <= winfo_screenwidth q -> w <= winfo_screenwidth q) /\
  (480 <= winfo_screenheight q -> h <= winfo_screenheight q) /\
  ((min_w <= w /\ min_h <= h) <->
   (winfo_reqwidth q <= Z.max 640 (winfo_screenwidth q - 80) /\
    winfo_reqheight q <= Z.max 480 (winfo_screenheight q - 120))).
Proof.
  unfold _autosize_to_content, autosize. cbn [fst snd].
  pose proof (Z.le_min_l (winfo_reqwidth q + 20) (Z.max 640 (winfo_screenwidth q - 80))).
  pose proof (Z.le_min_l (winfo_reqheight q + 20) (Z.max 480 (winfo_screenheight q - 120))).
  repeat split; try lia.
Qed.

(** On a 600 x 400 screen the window asked for is 640 x 480, below the
    minimum size of 760 x 900 and beyond the screen. *)
Example autosize_small_screen :
  _autosize_to_content {| winfo_reqwidth := 760; winfo_reqheight := 900;
                          winfo_screenwidth := 600; winfo_screenheight := 400 |}
  = ("640x480", (760, 900)).
Proof. vm_compute. reflexivity. Qed.

(** On a 1920 x 1080 screen a grid of 760 x 900 gets 780 x 920. *)
Example autosize_large_screen :
  _autosize_to_content {| winfo_reqwidth := 760; winfo_reqheight := 900;
                          winfo_screenwidth := 1920; winfo_screenheight := 1080 |}
  = ("780x920", (760, 900)).
Proof. vm_compute. reflexivity. Qed.

(** ** Loading the same file again *)

Lemma orig_none_same_world (w : World) (p : string) (e : exn) (ks : list Call)
    (c : ImageCache) :
  image_open w p = Raise e ->
  Forall (fun k => call_world k = w) ks ->
  orig_cache c !! p = None ->
  orig_cache (run_calls c ks) !! p = None.
Proof.
  intros Hi Hw. revert c. induction Hw as [|k ks Hk _ IH]; intros c Hc; [exact Hc|].
  cbn [run_calls foldl]. apply IH.
  destruct (run_call_step k c) as [Ho _]. cbv zeta in Ho.
  destruct Ho as [-> | (_ & _ & _ & img & Himg & ->)]; [exact Hc|].
  destruct (decide (call_path k = p)) as [Hp | Hp].
  - rewrite Hk, Hp in Himg. congruence.
  - rewrite lookup_insert_ne by exact Hp. exact Hc.
Qed.

(** In an unchanged world, a request answers the same after any further
    requests. *)
Lemma get_stable (w : World) (p : string) (s : option (Z * Z)) (c c' : ImageCache)
    (tk : option PhotoImage) (t : list Event) (ks : list Call) :
  get p s w c = (Return tk, c', t) ->
  Forall (fun k => call_world k = w) ks ->
  exists t', get p s w (run_calls c' ks) = (Return tk, run_calls c' ks, t').
Proof.
  intros Hget Hw. destruct tk as [b|].
  - destruct (get_returned_stored _ _ _ _ _ _ _ Hget) as (Hne & Hex & Ht & [img Ho]).
    destruct (run_calls_keeps ks c') as [Ko Kt].
    exists []. apply (get_hit p s w _ img b Hne Hex); auto.
  - revert Hget. rewrite get_unfold, _load_orig_unfold.
    destruct (decide (p = "")) as [He | Hne].
    { intros [= <- _]. exists []. apply get_absent. auto. }
    destruct (path_exists w p) eqn:Hex; simpl.
    + destruct (orig_cache c !! p) as [img|] eqn:Ho.
      { destruct (thumb_cache c !! _); [discriminate|].
        destruct (render img s); discriminate. }
      destruct (image_open w p) as [img|e] eqn:Hi.
      { cbn [store_orig thumb_cache]. destruct (thumb_cache c !! _); [discriminate|].
        destruct (render img s); discriminate. }
      intros [= <- _]. exists [EvDecode p].
      eapply get_decode_fail; eauto using orig_none_same_world.
    + intros [= <- _]. exists []. apply get_absent. auto.
Qed.

Lemma offer_names_again (names : list string) (tk : option PhotoImage) (cell : Cell) :
  offer_names names (set_label_image tk (offer_names names cell))
  = set_label_image tk (offer_names names cell).
Proof.
  unfold offer_names, set_label_image. cbn. f_equal.
  destruct (decide (name_var cell ∈ names)) as [Hin | Hout].
  - destruct (decide (name_var cell ∈ names)); [reflexivity | contradiction].
  - destruct (decide ("" ∈ names)); reflexivity.
Qed.

Lemma refresh_one_again (w : World) (index : gmap string Option) (c c1 : ImageCache)
    (cell cell' : Cell) (t : list Event) :
  refresh_one w index c cell = (cell', c1, t) ->
  exists tk ks,
    cell' = set_label_image tk cell /\
    c1 = run_calls c ks /\
    Forall (fun k => call_world k = w) ks /\
    forall ks', Forall (fun k => call_world k = w) ks' ->
      exists t', refresh_one w index (run_calls c1 ks') cell'
                 = (cell', run_calls c1 ks', t').
Proof.
  unfold refresh_one. cbn [name_var set_label_image].
  destruct (index !! name_var cell) as [o|] eqn:Hidx.
  - destruct (get_cell_box_spec (image_path o) w c) as (tk & t0 & Hget & _).
    rewrite Hget. intros [= <- <- <-].
    exists tk, [{| call_world := w; call_path := image_path o;
                   call_op := OpGet (Some (CELL_WIDTH, CELL_HEIGHT)) |}].
    split; [reflexivity|]. split; [reflexivity|].
    split; [repeat constructor|].
    intros ks' Hks'. cbn [name_var set_label_image]. rewrite Hidx.
    destruct (get_stable _ _ _ _ _ _ _ ks' Hget Hks') as [t' Hagain].
    change (run_calls c [?k]) with (run_call c k) in Hagain.
    rewrite Hagain. exists t'. reflexivity.
  - intros [= <- <- <-]. exists None, []. split; [reflexivity|].
    split; [reflexivity|]. split; [constructor|].
    intros ks' _. cbn [name_var set_label_image]. rewrite Hidx. eauto.
Qed.

Lemma reload_cells_again (w : World) (names : list string) (index : gmap string Option)
    (cs : list Cell) (c c1 : ImageCache) (cs1 : list Cell) (t1 : list Event) :
  reload_cells w names index c cs = (cs1, c1, t1) ->
  (exists ks, c1 = run_calls c ks /\ Forall (fun k => call_world k = w) ks) /\
  forall ks', Forall (fun k => call_world k = w) ks' ->
    exists t2, reload_cells w names index (run_calls c1 ks') cs1
               = (cs1, run_calls c1 ks', t2).
Proof.
  revert c c1 cs1 t1. induction cs as [|cell cs IH]; intros c c1 cs1 t1.
  - cbn. intros [= <- <- <-]. split; [exists []; split; [reflexivity | constructor]|].
    intros ks' _. cbn. eauto.
  - cbn [reload_cells].
    destruct (refresh_one w index c (offer_names names cell)) as [[cell' ca] ta] eqn:Hone.
    destruct (reload_cells w names index ca cs) as [[rest' cb] tb] eqn:Hrest.
    intros [= <- <- <-].
    destruct (refresh_one_again _ _ _ _ _ _ _ Hone) as (tk & ks1 & -> & -> & Hw1 & Hagain1).
    destruct (IH _ _ _ _ Hrest) as ((ks2 & -> & Hw2) & Hagain2).
    split.
    + exists (ks1 ++ ks2). rewrite run_calls_app. split; [reflexivity|].
      apply Forall_app. auto.
    + intros ks' Hks'. cbn [reload_cells]. rewrite offer_names_again.
      destruct (Hagain1 (ks2 ++ ks')) as [t' Ht']; [apply Forall_app; auto|].
      rewrite <- run_calls_app in Ht'. rewrite Ht'.
      destruct (Hagain2 ks' Hks') as [t2 Ht2]. rewrite Ht2. eauto.
Qed.

(** X26.  Loading the same file again in an unchanged world changes
    nothing: after a successful load, a second load of the same path in
    the same world returns normally and leaves the options, the index,
    every cell and the image cache exactly as the first load left them. *)
Theorem load_again_same_state (path : string) (w : World) (app : NineGridApp)
    (raw : pyval) (opts : list Option) :
  json_load w path = Return raw ->
  parse_options w raw = Return opts ->
  (load_options_file path w (load_options_file path w app).1.2).1
  = (Return tt, (load_options_file path w app).1.2).
Proof.
  intros Hj Hp.
  destruct (load_options_file_exact path w app raw opts Hj Hp)
    as (cs & c & t & Hcs & ->). cbn [fst snd].
  match goal with |- context [load_options_file path w ?a] => set (app1 := a) end.
  destruct (load_options_file_exact path w app1 raw opts Hj Hp)
    as (cs' & c' & t' & Hcs' & ->). cbn [fst snd].
  cbn [app1 image_cache cells] in Hcs'.
  destruct (reload_cells_again _ _ _ _ _ _ _ _ Hcs) as [_ Hagain].
  destruct (Hagain [] ltac:(constructor)) as [t2 Ht2].
  cbn [run_calls foldl] in Ht2. rewrite Ht2 in Hcs'. injection Hcs' as <- <- <-.
  reflexivity.
Qed.

Lemma load_again_same_state_witness :
  (load_options_file "options.json" (world_json json_duplicate)
     (load_options_file "options.json" (world_json json_duplicate) app_selected).1.2).1
  = (Return tt,
     (load_options_file "options.json" (world_json json_duplicate) app_selected).1.2).
Proof.
  apply (load_again_same_state "options.json" (world_json json_duplicate)
           app_selected json_duplicate
           [{| id := 1; name := "A"; image_path := "a.png" |};
            {| id := 2; name := "B"; image_path := "b.png" |};
            {| id := 3; name := "A"; image_path := "c.png" |}]).
  - reflexivity.
  - vm_compute. reflexivity.
Defined.

(** ** A selection that finds its image *)

(** X27.  When the selection names an option and [get] returns a bitmap
    for its image path in the cell box, the selection change puts exactly
    that bitmap on the label and in [img_label.image], installs the cache
    that [get] left, and does nothing else. *)
Theorem cell_change_shows_thumbnail (i : nat) (w : World) (app : NineGridApp)
    (cell : Cell) (o : Option) (b : PhotoImage) (c' : ImageCache) (t : list Event) :
  cells app !! i = Some cell ->
  name_to_option app !! name_var cell = Some o ->
  get (image_path o) (Some (CELL_WIDTH, CELL_HEIGHT)) w (image_cache app)
    = (Return (Some b), c', t) ->
  _on_cell_change i w app
  = (Return tt,
     with_cells c'
       (<[i := {| name_var := name_var cell; combo_values := combo_values cell;
                  img_label_shown := Some b; img_label_image := Some b |}]> (cells app))
       app,
     t).
Proof.
  intros Hcell Ho Hget.
  destruct (_on_cell_change_exact i w app cell Hcell) as (cell' & ks & t' & -> & Hcase).
  rewrite Ho in Hcase. destruct Hcase as (tk & Hg & -> & _).
  rewrite Hget in Hg. injection Hg as <- -> <-. reflexivity.
Qed.

Lemma cell_change_shows_thumbnail_witness :
  _on_cell_change 0 world_changed app_selected
  = (Return tt,
     with_cells cache_wide
       (<[0%nat := {| name_var := "Z"; combo_values := ["Z"];
                      img_label_shown := Some thumb_wide;
                      img_label_image := Some thumb_wide |}]> (cells app_selected))
       app_selected,
     []).
Proof.
  apply (cell_change_shows_thumbnail 0 world_changed app_selected
           {| name_var := "Z"; combo_values := ["Z"];
              img_label_shown := Some thumb_wide;
              img_label_image := Some thumb_wide |}
           {| id := 9; name := "Z"; image_path := "a.png" |}
           thumb_wide cache_wide []).
  - reflexivity.
  - vm_compute. reflexivity.
  - vm_compute. reflexivity.
Defined.
